(** * folder_analyze: a report on the structure of a directory tree

    A shallow embedding of [folder_analyze.py] and the properties of its
    traversal ([analyze_folder], [analyze_zip]), of the report element
    ([Item]) and of the report selection in [main].

    Conventions of the model.
    - The script counts and splits on the backslash, so paths are those of
      [pathlib]'s Windows flavour: a drive, a root and a list of names,
      printed with the backslash between names.  [joinpath] parses what
      it is given as [pathlib] does: a slash is a backslash, and a
      drive or a root in a member name takes the place of that of the
      path.
    - Text is [string]; [Text.lower] maps the letters A-Z, which is what
      [str.lower] does on ASCII text, and strings are compared character
      by character, as Python compares them.  [analyze_folder_with]
      takes the lowering as an argument, [analyze_folder] is its ASCII
      instance.
    - A value passed through Python's [str()] is a [pyval].
    - What the operating system and the [zipfile] library hand to the
      script (directory listings, [stat] results, the records of an
      archive, the archive or the exception that opening a record gives)
      is data of the model: [fsnode], [ZipFile], [ZipInfo].
    - [is_symlink], [stat] and [fromtimestamp] are taken to return and
      the writers to write; the properties speak of the runs in which
      they do. *)

From Stdlib Require Import ZArith List String Ascii Bool Lia.
From Stdlib Require Import Permutation Sorted.
From Stdlib Require Import Numbers.DecimalString.
Import ListNotations.

Local Open Scope string_scope.
Local Open Scope Z_scope.

#[local] Set Warnings "-register-all".

(** ** Text *)

Module Text.

(** The separator the script hard-codes ([chr(92)]). *)
Definition backslash : ascii := Eval cbv in ascii_of_nat 92.
Definition slash : ascii := "/"%char.
Definition dot : ascii := "."%char.

(** [s.count(c)] for a one-character [c]. *)
Fixpoint count (c : ascii) (s : string) : Z :=
  match s with
  | EmptyString => 0
  | String a s' => (if Ascii.eqb a c then 1 else 0) + count c s'
  end.

(** [s.split(c)]: never empty, one more piece than separators. *)
Fixpoint split (c : ascii) (s : string) : list string :=
  match s with
  | EmptyString => [EmptyString]
  | String a s' =>
      if Ascii.eqb a c then EmptyString :: split c s'
      else match split c s' with
           | [] => [String a EmptyString]
           | h :: t => String a h :: t
           end
  end.

(** [l[-1]] on a list known to be non-empty. *)
Definition last_piece (l : list string) : string := last l EmptyString.

(** [sep.join(l)]. *)
Fixpoint join (sep : string) (l : list string) : string :=
  match l with
  | [] => EmptyString
  | [x] => x
  | x :: rest => x ++ sep ++ join sep rest
  end.

Definition lower_char (a : ascii) : ascii :=
  let n := nat_of_ascii a in
  if (Nat.leb 65 n && Nat.leb n 90)%bool then ascii_of_nat (n + 32) else a.

(** [s.lower()]. *)
Fixpoint lower (s : string) : string :=
  match s with
  | EmptyString => EmptyString
  | String a s' => String (lower_char a) (lower s')
  end.

(** [s.endswith(c)] for a one-character [c]. *)
Fixpoint endswith (s : string) (c : ascii) : bool :=
  match s with
  | EmptyString => false
  | String a EmptyString => Ascii.eqb a c
  | String _ s' => endswith s' c
  end.

(** [s.rfind(c)], with -1 when [c] does not occur. *)
Fixpoint rfind (c : ascii) (s : string) : Z :=
  match s with
  | EmptyString => -1
  | String a s' =>
      let r := rfind c s' in
      if 0 <=? r then r + 1
      else if Ascii.eqb a c then 0 else -1
  end.

(** [s[i:]] for [0 <= i]. *)
Definition slice_from (i : Z) (s : string) : string :=
  substring (Z.to_nat i) (String.length s - Z.to_nat i) s.

Definition len (s : string) : Z := Z.of_nat (String.length s).

(** [str(n)] for an [int]. *)
Definition str_int (n : Z) : string := NilEmpty.string_of_int (Z.to_int n).

(** [s.zfill(w)] on the digits of a number that is not negative. *)
Fixpoint zeros (k : nat) : string :=
  match k with
  | O => EmptyString
  | S k' => String "0" (zeros k')
  end.

(** ["%0wd" % n] for [n] that is not negative. *)
Definition fmt_d (w : nat) (n : N) : string :=
  let s := str_int (Z.of_N n) in
  zeros (w - String.length s) ++ s.

(** [s.replace(a, b)] for one-character [a] and [b]. *)
Fixpoint replace_char (a b : ascii) (s : string) : string :=
  match s with
  | EmptyString => EmptyString
  | String c s' => String (if Ascii.eqb c a then b else c) (replace_char a b s')
  end.

(** [s[:n]] and [s[n:]]. *)
Definition take (n : nat) (s : string) : string := substring 0 n s.
Definition drop (n : nat) (s : string) : string :=
  substring n (String.length s - n) s.

(** [s.lstrip(c)] for a one-character [c]. *)
Fixpoint lstrip (c : ascii) (s : string) : string :=
  match s with
  | String a s' => if Ascii.eqb a c then lstrip c s' else s
  | EmptyString => EmptyString
  end.

(** [s.find(c, k)], [None] for -1. *)
Fixpoint find_from (c : ascii) (k : nat) (s : string) : option nat :=
  match s with
  | EmptyString => None
  | String a s' =>
      match k with
      | O => if Ascii.eqb a c then Some O
             else option_map S (find_from c O s')
      | S k' => option_map S (find_from c k' s')
      end
  end.

(** The letters that name a drive. *)
Definition is_letter (a : ascii) : bool :=
  let n := nat_of_ascii a in
  ((Nat.leb 65 n && Nat.leb n 90) || (Nat.leb 97 n && Nat.leb n 122))%bool.

End Text.

(** ** Values passed through [str()] *)

Inductive pyval :=
| VInt (n : Z)
| VStr (s : string)
| VTuple (l : list Z).

(** [str(v)]: a string is itself, an [int] its decimal digits, a tuple of
    ints its [repr]. *)
Definition py_str (v : pyval) : string :=
  match v with
  | VInt n => Text.str_int n
  | VStr s => s
  | VTuple [x] => "(" ++ Text.str_int x ++ ",)"
  | VTuple l => "(" ++ Text.join ", " (map Text.str_int l) ++ ")"
  end.

(** ** Paths ([pathlib], Windows flavour) *)

Record Path := mkPath {
  drv : string;          (* "C:", a share, or empty *)
  root : string;         (* one backslash or empty *)
  names : list string    (* the components after the anchor *)
}.

Module PathLib.

Definition sep : string := String Text.backslash EmptyString.

(** [str(p)]. *)
Definition str (p : Path) : string :=
  let anchor := drv p ++ root p in
  let body := Text.join sep (names p) in
  if String.eqb anchor EmptyString
  then (if String.eqb body EmptyString then "." else body)
  else anchor ++ body.

(** [p.name]. *)
Definition name (p : Path) : string := last (names p) EmptyString.

(** [p.suffix]. *)
Definition suffix (p : Path) : string :=
  let nm := name p in
  let i := Text.rfind Text.dot nm in
  if ((0 <? i) && (i <? Text.len nm - 1))%bool
  then Text.slice_from i nm
  else EmptyString.

(** The path of a directory entry [nm] of [p], as [rglob] builds it. *)
Definition child (p : Path) (nm : string) : Path :=
  mkPath (drv p) (root p) (names p ++ [nm]).

Definition is_component (s : string) : bool :=
  negb (String.eqb s EmptyString || String.eqb s ".").

Definition is_sep (c : option ascii) : bool :=
  match c with Some a => Ascii.eqb a Text.backslash | None => false end.

Definition is_colon (c : option ascii) : bool :=
  match c with Some a => Ascii.eqb a ":" | None => false end.

Definition is_drive_letter (c : option ascii) : bool :=
  match c with Some a => Text.is_letter a | None => false end.

(** The prefix of the extended paths: two backslashes, a question mark
    and a backslash. *)
Definition ext_namespace_prefix : string :=
  String Text.backslash (String Text.backslash (String "?" sep)).

(** [_split_extended_path(s)]. *)
Definition split_extended_path (s : string) : string * string :=
  if String.prefix ext_namespace_prefix s then
    let prefix_ := Text.take 4 s in
    let s := Text.drop 4 s in
    if String.prefix ("UNC" ++ sep) s
    then (prefix_ ++ Text.take 3 s, sep ++ Text.drop 3 s)
    else (prefix_, s)
  else (EmptyString, s).

(** [splitroot(part)] of the Windows flavour: the drive (a letter and a
    colon, or a share, with the prefix of an extended path), the root and
    the rest. *)
Definition splitroot (part : string) : string * string * string :=
  let '(prefix_, part) :=
    if (is_sep (String.get 1 part) && is_sep (String.get 0 part))%bool
    then split_extended_path part
    else (EmptyString, part) in
  let first := String.get 0 part in
  let second := String.get 1 part in
  let third := String.get 2 part in
  let unc : option (string * string * string) :=
    if (is_sep second && is_sep first && negb (is_sep third))%bool then
      match Text.find_from Text.backslash 2 part with
      | Some index =>
          let found := Text.find_from Text.backslash (index + 1) part in
          match found with
          | Some index2 =>
              if Nat.eqb index2 (index + 1) then None
              else Some (if String.eqb prefix_ EmptyString
                         then Text.take index2 part
                         else prefix_ ++ substring 1 (index2 - 1) part,
                         sep, Text.drop (index2 + 1) part)
          | None =>
              let index2 := String.length part in
              Some (if String.eqb prefix_ EmptyString
                    then Text.take index2 part
                    else prefix_ ++ substring 1 (index2 - 1) part,
                    sep, Text.drop (index2 + 1) part)
          end
      | None => None
      end
    else None in
  match unc with
  | Some r => r
  | None =>
      let '(drv_, part, first) :=
        if (is_colon second && is_drive_letter first)%bool
        then (Text.take 2 part, Text.drop 2 part, third)
        else (EmptyString, part, first) in
      if is_sep first
      then (prefix_ ++ drv_, sep, Text.lstrip Text.backslash part)
      else (prefix_ ++ drv_, EmptyString, part)
  end.

(** [parse_parts] on one string: the slash is turned into the backslash,
    the anchor is split off, and the rest is cut at the backslash, empty
    pieces and ["."] dropped. *)
Definition parse (s : string) : string * string * list string :=
  let '(drv_, root_, rel) :=
    splitroot (Text.replace_char Text.slash Text.backslash s) in
  (drv_, root_, filter is_component (Text.split Text.backslash rel)).

(** The names that a string adds to a path. *)
Definition member_names (s : string) : list string := snd (parse s).

(** A string without a drive and without a root. *)
Definition relative_name (s : string) : bool :=
  (String.eqb (fst (fst (parse s))) EmptyString
   && String.eqb (snd (fst (parse s))) EmptyString)%bool.

(** [join_parsed_parts]: a string with a root replaces the names and
    keeps the drive when it has none of its own; a string with the same
    drive and no root adds its names; a string with another drive
    replaces the path; a string without drive and root adds its names. *)
Definition join_parsed_parts (p : Path) (drv2 root2 : string)
    (names2 : list string) : Path :=
  if negb (String.eqb root2 EmptyString) then
    if (String.eqb drv2 EmptyString && negb (String.eqb (drv p) EmptyString))%bool
    then mkPath (drv p) root2 names2
    else mkPath drv2 root2 names2
  else if negb (String.eqb drv2 EmptyString) then
    if (String.eqb drv2 (drv p)
        || String.eqb (Text.lower drv2) (Text.lower (drv p)))%bool
    then mkPath (drv p) (root p) (names p ++ names2)
    else mkPath drv2 root2 names2
  else mkPath (drv p) (root p) (names p ++ names2).

(** [p.joinpath(s)]. *)
Definition joinpath (p : Path) (s : string) : Path :=
  let '(drv2, root2, names2) := parse s in
  join_parsed_parts p drv2 root2 names2.

(** [p.absolute()] in the working directory [cwd]: a path with a root
    is itself, any other is appended to [cwd]. *)
Definition absolute (cwd p : Path) : Path :=
  if String.eqb (root p) EmptyString
  then mkPath (drv cwd) (root cwd) (names cwd ++ names p)
  else p.

End PathLib.

(** ** The report element *)

Module Item.

Record t := mk {
  path : string;
  level : Z;
  name : string;
  size : string;
  time : string
}.

(** [Item.__init__(root_path, path, size, time)]. *)
Definition init (root_path path_ : string) (size_ time_ : pyval) : t :=
  {| path := path_;
     level := Text.count Text.backslash path_
              - Text.count Text.backslash root_path - 1;
     name := Text.last_piece (Text.split Text.backslash path_);
     size := py_str size_;
     time := py_str time_ |}.

End Item.

(** ** Time stamps *)

(** A [datetime.datetime], as [datetime.fromtimestamp] returns it. *)
Record datetime := mkDatetime {
  year : N; month : N; day : N;
  hour : N; minute : N; second : N;
  microsecond : N
}.

(** [d.isoformat()]: date, the letter T, time, and the microseconds when
    they are not zero. *)
Definition isoformat (d : datetime) : string :=
  Text.fmt_d 4 (year d) ++ "-" ++ Text.fmt_d 2 (month d) ++ "-"
  ++ Text.fmt_d 2 (day d) ++ "T"
  ++ Text.fmt_d 2 (hour d) ++ ":" ++ Text.fmt_d 2 (minute d) ++ ":"
  ++ Text.fmt_d 2 (second d)
  ++ (if N.eqb (microsecond d) 0 then EmptyString
      else "." ++ Text.fmt_d 6 (microsecond d)).

(** The [date_time] of an archive record: year, month, day, hours,
    minutes, seconds. *)
Definition zip_time : Type := (Z * Z * Z * Z * Z * Z)%type.

Definition tuple_of (t : zip_time) : pyval :=
  let '(y, mo, d, h, mi, s) := t in VTuple [y; mo; d; h; mi; s].

(** ** Failure *)

(** The exceptions that end a walk: [zipfile.BadZipFile] for bytes that
    are not a ZIP archive, [PermissionError] for a directory opened as a
    file, [RuntimeError] for an encrypted record read without a password,
    and any other class by its name. *)
Inductive exn :=
| BadZipFile
| PermissionError
| RuntimeError
| OtherError (class : string).

Inductive result (A : Type) :=
| Ok (a : A)
| Raise (e : exn).
Arguments Ok {A} a.
Arguments Raise {A} e.

Definition bind {A B : Type} (r : result A) (k : A -> result B) : result B :=
  match r with
  | Ok a => k a
  | Raise e => Raise e
  end.

Notation "x <- r ;; k" := (bind r (fun x => k))
  (at level 61, r at next level, right associativity).

(** ** Archives and the file system *)

(** An open archive is its list of records ([infolist()]); a record
    carries its name, its uncompressed size, its time stamp and [opened]:
    what lines 92 to 94 get from it, the archive that
    [zipfile.ZipFile(BytesIO(zipf.open(rec).read()))] yields or the
    exception that one of these calls raises ([BadZipFile] when the bytes
    of the record are not a ZIP archive).  [data] is that archive when
    there is one. *)
Inductive ZipFile :=
| mkZipFile (infolist : list ZipInfo)
with ZipInfo :=
| mkZipInfo (filename : string) (file_size : Z) (date_time : zip_time)
            (opened : result ZipFile).

Definition infolist (z : ZipFile) : list ZipInfo :=
  match z with mkZipFile l => l end.
Definition filename (f : ZipInfo) : string :=
  match f with mkZipInfo n _ _ _ => n end.
Definition file_size (f : ZipInfo) : Z :=
  match f with mkZipInfo _ s _ _ => s end.
Definition date_time (f : ZipInfo) : zip_time :=
  match f with mkZipInfo _ _ t _ => t end.
Definition opened (f : ZipInfo) : result ZipFile :=
  match f with mkZipInfo _ _ _ o => o end.
Definition data (f : ZipInfo) : option ZipFile :=
  match opened f with Ok z => Some z | Raise _ => None end.

(** [os.stat_result], with [st_mtime] already turned into local time. *)
Record stat_result := mkStat { st_size : Z; st_mtime : datetime }.

(** An object of the file system.  A file carries [archive]: what
    [zipfile.ZipFile(path)] finds in it, [None] when it is not a ZIP
    archive.  A directory carries its entries in the order the system
    lists them, each under its own name.  A symbolic link carries the
    object it points to. *)
Inductive fsnode :=
| File (st : stat_result) (archive : option ZipFile)
| Dir (st : stat_result) (entries : list (string * fsnode))
| Symlink (target : fsnode).

Definition is_symlink (n : fsnode) : bool :=
  match n with Symlink _ => true | _ => false end.

(** [path.stat()] and [path.is_dir()] follow links. *)
Fixpoint stat (n : fsnode) : stat_result :=
  match n with
  | File st _ => st
  | Dir st _ => st
  | Symlink t => stat t
  end.

Fixpoint is_dir (n : fsnode) : bool :=
  match n with
  | File _ _ => false
  | Dir _ _ => true
  | Symlink t => is_dir t
  end.

(** [zipfile.ZipFile(path, 'r')]. *)
Fixpoint open_zip (n : fsnode) : result ZipFile :=
  match n with
  | File _ (Some z) => Ok z
  | File _ None => Raise BadZipFile
  | Dir _ _ => Raise PermissionError
  | Symlink t => open_zip t
  end.

(** ** [root.rglob('*')]

    [pathlib] visits the root and then every directory below it, parents
    first, and yields the entries of each visited directory; a symbolic
    link is yielded as an entry and is not visited.  The root itself is
    listed through a link. *)
Fixpoint follow (n : fsnode) : fsnode :=
  match n with
  | Symlink t => follow t
  | _ => n
  end.

Fixpoint visit (p : Path) (n : fsnode) : list (Path * fsnode) :=
  match n with
  | Dir _ es =>
      (map (fun e => (PathLib.child p (fst e), snd e)) es
       ++ flat_map (fun e => visit (PathLib.child p (fst e)) (snd e)) es)%list
  | _ => []
  end.

Definition rglob (p : Path) (n : fsnode) : list (Path * fsnode) :=
  visit p (follow n).

(** ** The walkers *)

Definition is_zip_suffix (p : Path) : bool :=
  String.eqb (Text.lower (PathLib.suffix p)) ".zip".

(** The size token of an archive record at the point where the script
    appends its element: the record's size, replaced by FOLDER when the
    name ends with a slash, replaced by ZIP when the path has the suffix
    of an archive. *)
Definition zip_size_token (f : ZipInfo) (path_ : Path) : pyval :=
  let size := VInt (file_size f) in
  let size := if Text.endswith (filename f) Text.slash
              then VStr "FOLDER" else size in
  let size := if is_zip_suffix path_ then VStr "ZIP" else size in
  size.

(** [analyze_zip(root, zipf, zip_root)]: the loop over [zipf.infolist()],
    each turn extending [items] with the elements of a nested archive and
    then appending the element of the record itself. *)
Fixpoint analyze_zip (root_ : Path) (zipf : ZipFile) (zip_root : Path)
  : result (list Item.t) :=
  (fix loop (records : list ZipInfo) : result (list Item.t) :=
     match records with
     | [] => Ok []
     | f_name :: rest =>
         let path_ := PathLib.joinpath zip_root (filename f_name) in
         let time_ := tuple_of (date_time f_name) in
         let size_ := zip_size_token f_name path_ in
         nested <-
           (if is_zip_suffix path_ then
              match opened f_name with
              | Raise e => Raise e
              | Ok nested_zip => analyze_zip root_ nested_zip path_
              end
            else Ok []) ;;
         let item := Item.init (PathLib.str root_) (PathLib.str path_)
                               size_ time_ in
         later <- loop rest ;;
         Ok (nested ++ item :: later)%list
     end) (infolist zipf).

(** The size token of a file-system object, by the same two assignments
    in sequence. *)
Definition folder_size_token (n : fsnode) (path_ : Path) : pyval :=
  let size := VInt (st_size (stat n)) in
  let size := if is_dir n then VStr "FOLDER" else size in
  let size := if is_zip_suffix path_ then VStr "ZIP" else size in
  size.

(** One turn of the loop of [analyze_folder]: what it adds to [items]
    for the object [n] at [path_]. *)
Definition folder_turn (root_ : Path) (path_ : Path) (n : fsnode)
  : result (list Item.t) :=
  if is_symlink n then Ok []
  else
    let time_ := VStr (isoformat (st_mtime (stat n))) in
    let size_ := folder_size_token n path_ in
    nested <-
      (if is_zip_suffix path_ then
         zipf <- open_zip n ;;
         analyze_zip root_ zipf path_
       else Ok []) ;;
    Ok (nested ++ [Item.init (PathLib.str root_) (PathLib.str path_)
                             size_ time_])%list.

(** The loop of [analyze_folder] over what [rglob] yields: the list
    [items] before it is sorted. *)
Fixpoint walk (root_ : Path) (found : list (Path * fsnode))
  : result (list Item.t) :=
  match found with
  | [] => Ok []
  | (path_, n) :: rest =>
      here <- folder_turn root_ path_ n ;;
      later <- walk root_ rest ;;
      Ok (here ++ later)%list
  end.

Definition analyze_folder_raw (root_ : Path) (tree : fsnode)
  : result (list Item.t) :=
  walk root_ (rglob root_ tree).

(** [items.sort(key=...)]: a stable sort on the keys, compared as
    strings.  Insertion from the right keeps equal keys in their order. *)
Section Sort.
Context {A : Type} (key : A -> string).

Definition key_le (x y : A) : bool := String.leb (key x) (key y).

(** The order that the sorted list is in. *)
Definition key_ordered (x y : A) : Prop := key_le x y = true.

Fixpoint insert (x : A) (l : list A) : list A :=
  match l with
  | [] => [x]
  | y :: l' => if key_le x y then x :: y :: l' else y :: insert x l'
  end.

Fixpoint sort (l : list A) : list A :=
  match l with
  | [] => []
  | x :: l' => insert x (sort l')
  end.
End Sort.

(** [analyze_folder(root)], with [str.lower] as [lower]: the loop, then
    the sort on the lowered paths. *)
Definition analyze_folder_with (lower : string -> string)
    (root_ : Path) (tree : fsnode) : result (list Item.t) :=
  items <- analyze_folder_raw root_ tree ;;
  Ok (sort (fun x => lower (Item.path x)) items).


(** [analyze_folder(root)] on ASCII text, where [str.lower] is
    [Text.lower]. *)
Definition analyze_folder (root_ : Path) (tree : fsnode)
  : result (list Item.t) :=
  analyze_folder_with Text.lower root_ tree.

(** ** The writers and [main] *)

(** [' ' * n]: empty when [n] is not positive. *)
Definition spaces (n : Z) : string :=
  Text.join EmptyString (repeat " " (Z.to_nat n)).

(** [Item.__str__]. *)
Definition Item_str (i : Item.t) : string :=
  spaces (Item.level i * 5) ++ Item.name i
  ++ spaces 5 ++ Item.size i
  ++ spaces 5 ++ Item.time i.

(** What [json.dump] is given. *)
Inductive json :=
| JInt (n : Z)
| JString (s : string)
| JArray (l : list json)
| JObject (fields : list (string * json)).

(** What a writer hands to its library for the report path: the heading
    and the paragraph texts for [python-docx], the cells for [openpyxl]
    and [csv], the title and, for each element, the left indent and the
    text of its [Paragraph] for [reportlab], which lays the text out on
    its own, and the object given to [json.dump].  The libraries are
    taken to write what they are handed, and the font file that
    [write_pdf] registers to be there. *)
Inductive document :=
| Docx (heading : string) (paragraphs : list string)
| Xlsx (title : string) (rows : list (list string))
| Pdf (title : string) (lines : list (Z * string))
| Csv (rows : list (list string))
| JsonFile (output : json).

Inductive event :=
| Print (line : string)
| Save (report_path : Path) (doc : document).

Definition report_title (folder_path : Path) : string :=
  "Отчет о структуре файлов в папке " ++ PathLib.str folder_path.

(** [[''] * d.level + [d.name, d.size, d.time]]. *)
Definition table_row (d : Item.t) : list string :=
  (repeat EmptyString (Z.to_nat (Item.level d))
   ++ [Item.name d; Item.size d; Item.time d])%list.

Definition write_docx (folder_path report_path : Path) (data : list Item.t)
  : list event :=
  [Save report_path (Docx (report_title folder_path) (map Item_str data))].

Definition write_xlsx (folder_path report_path : Path) (data : list Item.t)
  : list event :=
  [Save report_path
        (Xlsx (report_title folder_path) ([] :: map table_row data))].

Definition write_pdf (folder_path report_path : Path) (data : list Item.t)
  : list event :=
  [Save report_path
        (Pdf ("Анализ папки " ++ PathLib.str folder_path)
             (map (fun d => (20 * Item.level d, Item_str d)) data))].

Definition write_csv (folder_path report_path : Path) (data : list Item.t)
  : list event :=
  [Save report_path
        (Csv ([report_title folder_path] :: [] :: map table_row data))].

(** The dictionary [write_json] appends for one element. *)
Definition json_item (d : Item.t) : json :=
  JObject [("level", JInt (Item.level d));
           ("name", JString (Item.name d));
           ("size", JString (Item.size d));
           ("time", JString (Item.time d));
           ("path", JString (Item.path d))].

Definition json_output (folder_path : Path) (data : list Item.t) : json :=
  JObject [("folder", JString (PathLib.str folder_path));
           ("items", JArray (map json_item data))].

(** [write_json]: every element is printed, then the file is written. *)
Definition write_json (folder_path report_path : Path) (data : list Item.t)
  : list event :=
  (map (fun i => Print (Item_str i)) data
   ++ [Save report_path (JsonFile (json_output folder_path data))])%list.

Definition quote_char : ascii := Eval cbv in ascii_of_nat 34.
Definition quote : string := String quote_char EmptyString.

Definition invalid_folder_report : list event :=
  [Print "Ошибка: указанный путь не является папкой или не существует.";
   Print "Укажите корректный путь к анализируемой папке."].

Definition invalid_format_report (ex : string) : list event :=
  [Print ("Ошибка: указан некорректный формат отчёта: "
          ++ quote ++ ex ++ quote ++ ".");
   Print ("Укажите корректный формат отчёта ("
          ++ quote ++ ".csv" ++ quote ++ ", "
          ++ quote ++ ".json" ++ quote ++ ", "
          ++ quote ++ ".docx" ++ quote ++ ", "
          ++ quote ++ ".xlsx" ++ quote ++ ", "
          ++ quote ++ ".pdf" ++ quote ++ ") и попробуйте ещё раз.")].

Definition done_report (report_path : Path) : list event :=
  [Print ("Отчёт сформирован: " ++ PathLib.str report_path)].

(** How a run ends: [main] returns, or an exception leaves it. *)
Inductive ending :=
| Returned
| Uncaught (e : exn).

(** [main()] after the command line is parsed.  [tree] is the object at
    [folder_path], [None] when there is none. *)
Definition main (folder_path report_path : Path) (tree : option fsnode)
  : list event * ending :=
  let ex := Text.lower (PathLib.suffix report_path) in
  match tree with
  | None => (invalid_folder_report, Returned)
  | Some t =>
      if negb (is_dir t) then (invalid_folder_report, Returned)
      else
        match analyze_folder folder_path t with
        | Raise e => ([], Uncaught e)
        | Ok data =>
            if String.eqb ex ".docx" then
              (write_docx folder_path report_path data
               ++ done_report report_path, Returned)%list
            else if String.eqb ex ".xlsx" then
              (write_xlsx folder_path report_path data
               ++ done_report report_path, Returned)%list
            else if String.eqb ex ".pdf" then
              (write_pdf folder_path report_path data
               ++ done_report report_path, Returned)%list
            else if String.eqb ex ".csv" then
              (write_csv folder_path report_path data
               ++ done_report report_path, Returned)%list
            else if String.eqb ex ".json" then
              (write_json folder_path report_path data
               ++ done_report report_path, Returned)%list
            else (invalid_format_report ex, Returned)
        end
  end.

(** The files a run has written. *)
Fixpoint saved (log : list event) : list (Path * document) :=
  match log with
  | [] => []
  | Print _ :: log' => saved log'
  | Save p d :: log' => (p, d) :: saved log'
  end.

(** * Definitions for the statements *)

(** Both walkers run a loop whose turns each add a run of elements, and
    an exception in one turn leaves the loop. *)
Fixpoint for_each {X : Type} (turn : X -> result (list Item.t)) (l : list X)
  : result (list Item.t) :=
  match l with
  | [] => Ok []
  | x :: rest =>
      here <- turn x ;;
      later <- for_each turn rest ;;
      Ok (here ++ later)%list
  end.

(** One turn of the loop of [analyze_zip]. *)
Definition zip_turn (root_ zip_root : Path) (f_name : ZipInfo)
  : result (list Item.t) :=
  let path_ := PathLib.joinpath zip_root (filename f_name) in
  nested <-
    (if is_zip_suffix path_ then
       match opened f_name with
       | Raise e => Raise e
       | Ok nested_zip => analyze_zip root_ nested_zip path_
       end
     else Ok []) ;;
  Ok (nested ++ [Item.init (PathLib.str root_) (PathLib.str path_)
                           (zip_size_token f_name path_)
                           (tuple_of (date_time f_name))])%list.

(** What [str] puts in front of the last name of a path. *)
Definition dir_prefix (p : Path) : string :=
  (drv p ++ root p
   ++ match names p with
      | [] => EmptyString
      | _ => Text.join PathLib.sep (names p) ++ PathLib.sep
      end)%string.

Definition sample_time : datetime := mkDatetime 2024 1 2 3 4 5 0.
Definition sample_stat : stat_result := mkStat 10 sample_time.
Definition sample_root : Path := mkPath "" "" ["root"].
Definition sample_zip_time : zip_time := (1980, 1, 1, 0, 0, 0).

(** A directory that lists Z.txt before a.txt. *)
Definition two_files : fsnode :=
  Dir sample_stat [("Z.txt", File sample_stat None);
                   ("a.txt", File sample_stat None)].

(** An archive holding a folder, a nested archive with one file, and a
    file. *)
Definition sample_inner : ZipFile :=
  mkZipFile [mkZipInfo "leaf.txt" 7 sample_zip_time (Raise BadZipFile)].
Definition sample_archive : ZipFile :=
  mkZipFile [mkZipInfo "d/" 0 sample_zip_time (Raise BadZipFile);
             mkZipInfo "d/inner.zip" 123 sample_zip_time (Ok sample_inner);
             mkZipInfo "x.txt" 5 sample_zip_time (Raise BadZipFile)].
Definition with_archive : fsnode :=
  Dir sample_stat [("b.txt", File sample_stat None);
                   ("arch.ZIP", File sample_stat (Some sample_archive));
                   ("c.txt", File sample_stat None)].

(** A folder record whose name has the suffix of an archive, with bytes
    that are an archive ([Some]) or, as a folder record has them, none
    that are ([None]). *)
Definition folder_named_zip (payload : option ZipFile) : ZipInfo :=
  mkZipInfo "d.zip/" 0 sample_zip_time
            match payload with
            | Some z => Ok z
            | None => Raise BadZipFile
            end.

(** Where walking the archive [z] mounted at [zip_root] comes to the
    record [f] of an archive mounted at [at_]: [f] is a record of [z], or
    of an archive nested in a record of [z] that has the suffix of an
    archive. *)
Inductive zip_reaches : ZipFile -> Path -> ZipInfo -> Path -> Prop :=
| reaches_record pre f post zip_root :
    zip_reaches (mkZipFile (pre ++ f :: post)) zip_root f zip_root
| reaches_nested pre g post zip_root nested f at_ :
    is_zip_suffix (PathLib.joinpath zip_root (filename g)) = true ->
    data g = Some nested ->
    zip_reaches nested (PathLib.joinpath zip_root (filename g)) f at_ ->
    zip_reaches (mkZipFile (pre ++ g :: post)) zip_root f at_.

(** A root that holds a directory named d.zip. *)
Definition with_dir_named_zip : fsnode :=
  Dir sample_stat [("b.txt", File sample_stat None);
                   ("d.zip", Dir sample_stat [])].

(** A root that holds an archive with a folder record named d.zip/. *)
Definition with_folder_record_named_zip : fsnode :=
  Dir sample_stat
      [("a.zip",
        File sample_stat
             (Some (mkZipFile [mkZipInfo "x.txt" 5 sample_zip_time (Raise BadZipFile);
                               folder_named_zip None])))].

(** A root that holds an archive with a folder record named d.zip/ whose
    bytes are an archive, an empty one. *)
Definition with_folder_record_holding_archive : fsnode :=
  Dir sample_stat
      [("a.zip",
        File sample_stat
             (Some (mkZipFile [folder_named_zip (Some (mkZipFile []))])))].

(** A root that holds a file, a link to a directory with two files and a
    link to an archive. *)
Definition with_links : fsnode :=
  Dir sample_stat
      [("b.txt", File sample_stat None);
       ("l", Symlink two_files);
       ("m.zip", Symlink (File sample_stat (Some sample_archive)))].

(** The tree with every symbolic link below its root removed, together
    with whatever the link points to. *)
Fixpoint without_links (n : fsnode) : fsnode :=
  match n with
  | File st a => File st a
  | Dir st es =>
      Dir st (flat_map (fun e => if is_symlink (snd e) then []
                                 else [(fst e, without_links (snd e))]) es)
  | Symlink t => Symlink (without_links t)
  end.

Definition supported (ex : string) : bool :=
  existsb (String.eqb ex) [".docx"; ".xlsx"; ".pdf"; ".csv"; ".json"].

Definition is_int (j : json) : bool :=
  match j with JInt _ => true | _ => false end.
Definition is_string (j : json) : bool :=
  match j with JString _ => true | _ => false end.
Definition field_is (f : string * json) (key : string) (ok : json -> bool)
  : bool :=
  (String.eqb (fst f) key && ok (snd f))%bool.

(** An object with the five keys of an element, in this order, [level] an
    integer and the other four strings. *)
Definition item_shape (j : json) : bool :=
  match j with
  | JObject [a; b; c; d; e] =>
      (field_is a "level" is_int && field_is b "name" is_string
       && field_is c "size" is_string && field_is d "time" is_string
       && field_is e "path" is_string)%bool
  | _ => false
  end.

(** An object with the keys [folder], a string, and [items], an array of
    elements. *)
Definition report_shape (j : json) : bool :=
  match j with
  | JObject [a; b] =>
      (field_is a "folder" is_string
       && field_is b "items"
            (fun v => match v with
                      | JArray l => forallb item_shape l
                      | _ => false
                      end))%bool
  | _ => false
  end.

(** [obj[key]]. *)
Definition field (key : string) (j : json) : option json :=
  match j with
  | JObject fs =>
      option_map snd (find (fun f => String.eqb (fst f) key) fs)
  | _ => None
  end.



(** The count that [Item.__init__] takes of a string. *)
Definition separators (s : string) : Z := Text.count Text.backslash s.

(** A path strictly below the root: the same anchor, the names of the
    root and at least one more. *)
Definition below (root_ p : Path) : Prop :=
  drv p = drv root_ /\ root p = root root_
  /\ exists extra, extra <> [] /\ names p = (names root_ ++ extra)%list.

(** A root that holds a\b\file.txt. *)
Definition chain (sr sa sb sf : stat_result) : fsnode :=
  Dir sr [("a", Dir sa [("b", Dir sb [("file.txt", File sf None)])])].

(** The root given as a dot, and a working directory. *)
Definition dot_root : Path := mkPath "" "" [].
Definition work_dir : Path := mkPath "C:" PathLib.sep ["work"].
Definition one_file : fsnode :=
  Dir sample_stat [("a.txt", File sample_stat None)].

(** ** Further definitions *)

(** A name that holds no backslash. *)
Definition is_plain (s : string) : bool := separators s =? 0.

(** Every name listed in the tree is plain, which is so on a system
    whose separator is the backslash. *)
Fixpoint plain_tree (n : fsnode) : bool :=
  match n with
  | File _ _ => true
  | Dir _ es => forallb (fun e => is_plain (fst e) && plain_tree (snd e))%bool es
  | Symlink t => plain_tree t
  end.

(** A path made of the root and of at least one more name, all of them
    plain. *)
Definition plainly_below (root_ p : Path) (extra : list string) : Prop :=
  extra <> [] /\ Forall (fun x => is_plain x = true) extra
  /\ p = mkPath (drv root_) (root root_) (names root_ ++ extra).



(** The element that [analyze_folder] appends for the object [n] at
    [path_]. *)
Definition object_item (root_ path_ : Path) (n : fsnode) : Item.t :=
  Item.init (PathLib.str root_) (PathLib.str path_)
    (folder_size_token n path_) (VStr (isoformat (st_mtime (stat n)))).

(** The element that [analyze_zip] appends for the record [f] of an
    archive mounted at [at_]. *)
Definition record_item (root_ at_ : Path) (f : ZipInfo) : Item.t :=
  Item.init (PathLib.str root_)
    (PathLib.str (PathLib.joinpath at_ (filename f)))
    (zip_size_token f (PathLib.joinpath at_ (filename f)))
    (tuple_of (date_time f)).

(** Every member name of the archive, and of the archives nested in it,
    is relative, as the ZIP format prescribes. *)
Fixpoint relative_members (z : ZipFile) : bool :=
  match z with
  | mkZipFile l =>
      forallb (fun f => PathLib.relative_name (filename f)
                        && match opened f with
                           | Ok nested => relative_members nested
                           | Raise _ => true
                           end)%bool l
  end.

(** Every archive file of the tree has relative member names. *)
Fixpoint relative_archives (n : fsnode) : bool :=
  match n with
  | File _ (Some z) => relative_members z
  | File _ None => true
  | Dir _ es => forallb (fun e => relative_archives (snd e)) es
  | Symlink t => relative_archives t
  end.

(** The traversal of [rglob], each yielded object with the number of
    directories between the root and it. *)
Fixpoint visit_depth (d : nat) (p : Path) (n : fsnode)
  : list (Path * fsnode * nat) :=
  match n with
  | Dir _ es =>
      (map (fun e => (PathLib.child p (fst e), snd e, d)) es
       ++ flat_map (fun e => visit_depth (S d) (PathLib.child p (fst e)) (snd e))
                   es)%list
  | _ => []
  end.

Definition rglob_depth (p : Path) (n : fsnode) : list (Path * fsnode * nat) :=
  visit_depth 0 p (follow n).

(** * Properties *)

(** ** The order on keys *)

Lemma string_leb_refl (s : string) : String.leb s s = true.
Proof.
  destruct (String.leb_total s s); assumption.
Qed.

Lemma string_compare_trans_le (a b c : string) :
  String.compare a b <> Gt -> String.compare b c <> Gt ->
  String.compare a c <> Gt.
Proof.
  revert b c.
  induction a as [|x a IH]; intros [|y b] [|z c]; simpl; try congruence.
  unfold Ascii.compare.
  destruct (N.compare_spec (N_of_ascii x) (N_of_ascii y)) as [Hxy|Hxy|Hxy];
    destruct (N.compare_spec (N_of_ascii y) (N_of_ascii z)) as [Hyz|Hyz|Hyz];
    destruct (N.compare_spec (N_of_ascii x) (N_of_ascii z)) as [Hxz|Hxz|Hxz];
    intros H1 H2; try congruence; try lia.
  apply (IH b c); assumption.
Qed.

Lemma string_leb_trans (a b c : string) :
  String.leb a b = true -> String.leb b c = true -> String.leb a c = true.
Proof.
  unfold String.leb.
  intros H1 H2.
  pose proof (string_compare_trans_le a b c) as T.
  destruct (String.compare a b); destruct (String.compare b c);
    destruct (String.compare a c); try reflexivity; try discriminate;
    exfalso; apply T; congruence.
Qed.

(** ** The sort *)

Section SortFacts.
Context {A : Type} (key : A -> string).

Lemma key_le_total (x y : A) : key_le key x y = false -> key_le key y x = true.
Proof.
  unfold key_le. intros H.
  destruct (String.leb_total (key x) (key y)) as [L|L]; congruence.
Qed.

Lemma insert_perm (x : A) (l : list A) : Permutation (x :: l) (insert key x l).
Proof.
  induction l as [|y l IH]; simpl.
  - apply Permutation_refl.
  - destruct (key_le key x y).
    + apply Permutation_refl.
    + eapply perm_trans; [apply perm_swap|].
      apply perm_skip, IH.
Qed.

Lemma sort_perm (l : list A) : Permutation l (sort key l).
Proof.
  induction l as [|x l IH]; simpl.
  - constructor.
  - eapply perm_trans; [apply perm_skip, IH | apply insert_perm].
Qed.

Lemma insert_sorted (x : A) (l : list A) :
  StronglySorted (key_ordered key) l -> StronglySorted (key_ordered key) (insert key x l).
Proof.
  induction 1 as [|y l Hs IH Hy]; simpl.
  - constructor; constructor.
  - destruct (key_le key x y) eqn:E.
    + constructor.
      * constructor; assumption.
      * constructor; [exact E|].
        eapply Forall_impl; [|exact Hy].
        intros z Hz. unfold key_ordered, key_le in *.
        eapply string_leb_trans; eassumption.
    + constructor; [exact IH|].
      apply (Permutation_Forall (insert_perm x l)).
      constructor; [|exact Hy].
      apply key_le_total, E.
Qed.

Lemma sort_sorted (l : list A) : StronglySorted (key_ordered key) (sort key l).
Proof.
  induction l as [|x l IH]; simpl.
  - constructor.
  - apply insert_sorted, IH.
Qed.

Lemma sort_In (l : list A) (x : A) : In x (sort key l) <-> In x l.
Proof.
  split; intros H.
  - eapply Permutation_in; [apply Permutation_sym, sort_perm | exact H].
  - eapply Permutation_in; [apply sort_perm | exact H].
Qed.

(** Elements with equal keys keep the order they had. *)
Lemma insert_filter (p : A -> bool) (x : A) (l : list A) :
  (forall y, In y l -> p x = true -> p y = true -> key_le key x y = true) ->
  filter p (insert key x l) = filter p (x :: l).
Proof.
  induction l as [|y l IH]; intros H; simpl.
  - reflexivity.
  - destruct (key_le key x y) eqn:E; simpl.
    + reflexivity.
    + rewrite IH by (intros z Hz; apply H; right; exact Hz).
      pose proof (H y (or_introl eq_refl)) as Hy.
      simpl. destruct (p x); destruct (p y); try reflexivity.
      rewrite Hy in E by reflexivity. discriminate.
Qed.

Lemma sort_stable (k : string) (l : list A) :
  filter (fun x => String.eqb (key x) k) (sort key l)
  = filter (fun x => String.eqb (key x) k) l.
Proof.
  induction l as [|x l IH]; simpl.
  - reflexivity.
  - rewrite insert_filter.
    + simpl. rewrite IH. reflexivity.
    + intros y _ Hx Hy. unfold key_le.
      apply String.eqb_eq in Hx, Hy. rewrite Hx, Hy.
      apply string_leb_refl.
Qed.
End SortFacts.

(** ** Induction over archives and trees *)

Section ZipFile_induction.
Variable P : ZipFile -> Prop.
Hypothesis step : forall l,
  Forall (fun f => match data f with Some z => P z | None => True end) l ->
  P (mkZipFile l).

Lemma ZipFile_nested_ind : forall z, P z.
Proof.
  fix IH 1.
  intros [l]. apply step.
  induction l as [|f l IHl]; constructor.
  - destruct f as [n s t [z|]]; simpl; [apply IH | exact I].
  - exact IHl.
Qed.
End ZipFile_induction.

Section fsnode_induction.
Variable P : fsnode -> Prop.
Hypothesis on_file : forall st a, P (File st a).
Hypothesis on_dir : forall st es,
  Forall (fun e => P (snd e)) es -> P (Dir st es).
Hypothesis on_link : forall t, P t -> P (Symlink t).

Lemma fsnode_nested_ind : forall n, P n.
Proof.
  fix IH 1.
  intros [st a|st es|t].
  - apply on_file.
  - apply on_dir.
    induction es as [|e es IHes]; constructor.
    + destruct e as [nm c]; simpl. apply IH.
    + exact IHes.
  - apply on_link, IH.
Qed.
End fsnode_induction.

(** ** Loops that extend [items] *)

Lemma data_Some (f : ZipInfo) (z : ZipFile) :
  data f = Some z <-> opened f = Ok z.
Proof.
  unfold data. destruct (opened f); split; intros H; inversion H; reflexivity.
Qed.

(** The loop of [analyze_zip], one turn unrolled. *)
Lemma analyze_zip_cons root_ zip_root f_name rest :
  analyze_zip root_ (mkZipFile (f_name :: rest)) zip_root
  = (let path_ := PathLib.joinpath zip_root (filename f_name) in
     nested <-
       (if is_zip_suffix path_ then
          match opened f_name with
          | Raise e => Raise e
          | Ok nested_zip => analyze_zip root_ nested_zip path_
          end
        else Ok []) ;;
     later <- analyze_zip root_ (mkZipFile rest) zip_root ;;
     Ok (nested
         ++ Item.init (PathLib.str root_) (PathLib.str path_)
                      (zip_size_token f_name path_)
                      (tuple_of (date_time f_name)) :: later)%list).
Proof. reflexivity. Qed.

Lemma analyze_zip_for_each root_ zip_root l :
  analyze_zip root_ (mkZipFile l) zip_root
  = for_each (zip_turn root_ zip_root) l.
Proof.
  induction l as [|f l IH].
  - reflexivity.
  - rewrite analyze_zip_cons. cbn [for_each]. rewrite <- IH.
    unfold zip_turn. cbv zeta.
    destruct (is_zip_suffix (PathLib.joinpath zip_root (filename f))).
    + destruct (opened f) as [z|e]; [|reflexivity].
      destruct (analyze_zip root_ z _) as [nested|e]; [|reflexivity].
      cbn [bind].
      destruct (analyze_zip root_ (mkZipFile l) zip_root); [|reflexivity].
      cbn [bind]. rewrite <- app_assoc. reflexivity.
    + cbn [bind].
      destruct (analyze_zip root_ (mkZipFile l) zip_root); reflexivity.
Qed.

Lemma walk_for_each root_ found :
  walk root_ found
  = for_each (fun e => folder_turn root_ (fst e) (snd e)) found.
Proof.
  induction found as [|[p n] l IH]; simpl.
  - reflexivity.
  - rewrite IH. reflexivity.
Qed.

Section for_each_facts.
Context {X : Type} (turn : X -> result (list Item.t)).

Lemma for_each_app (l1 l2 : list X) :
  for_each turn (l1 ++ l2)
  = (a <- for_each turn l1 ;; b <- for_each turn l2 ;; Ok (a ++ b)%list).
Proof.
  induction l1 as [|x l1 IH]; simpl.
  - destruct (for_each turn l2); reflexivity.
  - rewrite IH.
    destruct (turn x) as [h|e]; simpl; [|reflexivity].
    destruct (for_each turn l1) as [a|e]; simpl; [|reflexivity].
    destruct (for_each turn l2) as [b|e]; simpl; [|reflexivity].
    rewrite app_assoc. reflexivity.
Qed.

(** A loop that ends normally: every turn did, and the elements are the
    runs of the turns in order. *)
Lemma for_each_split (pre post : list X) (x : X) (items : list Item.t) :
  for_each turn (pre ++ x :: post) = Ok items ->
  exists before here after,
    for_each turn pre = Ok before /\ turn x = Ok here
    /\ for_each turn post = Ok after
    /\ items = (before ++ here ++ after)%list.
Proof.
  rewrite for_each_app. simpl.
  destruct (for_each turn pre) as [a|e]; simpl; [|discriminate].
  destruct (turn x) as [h|e]; simpl; [|discriminate].
  destruct (for_each turn post) as [b|e]; simpl; [|discriminate].
  intros E. inversion E. exists a, h, b. auto.
Qed.

(** An exception in one turn ends the loop with an exception. *)
Lemma for_each_raises (pre post : list X) (x : X) (e : exn) :
  turn x = Raise e ->
  exists e', for_each turn (pre ++ x :: post) = Raise e'.
Proof.
  intros Hx. rewrite for_each_app. simpl. rewrite Hx.
  destruct (for_each turn pre) as [a|e0]; simpl; eauto.
Qed.

End for_each_facts.

(** ** What the turns add *)

Lemma for_each_In {X : Type} (turn : X -> result (list Item.t))
    (l : list X) (items : list Item.t) (i : Item.t) :
  for_each turn l = Ok items ->
  (In i items <-> exists x here, In x l /\ turn x = Ok here /\ In i here).
Proof.
  revert items. induction l as [|x l IH]; cbn [for_each]; intros items H.
  - inversion H. split; [intros [] | intros (x & here & [] & _)].
  - destruct (turn x) as [h|e] eqn:Ex; cbn [bind] in H; [|discriminate].
    destruct (for_each turn l) as [b|e]; cbn [bind] in H; [|discriminate].
    inversion H. rewrite in_app_iff, (IH b eq_refl). split.
    + intros [Hi|(y & here & Hy & Ey & Hi)].
      * exists x, h. split; [left; reflexivity | auto].
      * exists y, here. split; [right; exact Hy | auto].
    + intros (y & here & [<-|Hy] & Ey & Hi).
      * left. congruence.
      * right. exists y, here. auto.
Qed.

(** What a turn of the archive walker adds when it ends normally. *)
Lemma zip_turn_Ok root_ zip_root f here :
  zip_turn root_ zip_root f = Ok here ->
  exists contents,
    here = (contents ++ [record_item root_ zip_root f])%list
    /\ (if is_zip_suffix (PathLib.joinpath zip_root (filename f))
        then exists nested,
               data f = Some nested
               /\ analyze_zip root_ nested
                    (PathLib.joinpath zip_root (filename f)) = Ok contents
        else contents = []).
Proof.
  unfold zip_turn. intros H.
  destruct (is_zip_suffix (PathLib.joinpath zip_root (filename f))).
  - destruct (opened f) as [z|e] eqn:Ho; [|discriminate].
    destruct (analyze_zip root_ z _) as [contents|e] eqn:Hz; [|discriminate].
    cbn [bind] in H. inversion H. exists contents. split; [reflexivity|].
    exists z. split; [apply data_Some, Ho | exact Hz].
  - cbn [bind] in H. inversion H. exists []. auto.
Qed.

Lemma analyze_zip_sound root_ (z : ZipFile) :
  forall zip_root items i,
    analyze_zip root_ z zip_root = Ok items -> In i items ->
    exists f at_, zip_reaches z zip_root f at_ /\ i = record_item root_ at_ f.
Proof.
  induction z as [l IH] using ZipFile_nested_ind.
  intros zip_root items i H Hi.
  rewrite analyze_zip_for_each in H.
  apply (for_each_In _ _ _ i H) in Hi.
  destruct Hi as (f & here & Hf & Hturn & Hi).
  rewrite Forall_forall in IH. specialize (IH f Hf). cbv beta in IH.
  apply in_split in Hf. destruct Hf as (pre & post & ->).
  apply zip_turn_Ok in Hturn. destruct Hturn as (contents & -> & Hc).
  apply in_app_iff in Hi. destruct Hi as [Hi|[<-|[]]].
  - destruct (is_zip_suffix (PathLib.joinpath zip_root (filename f))) eqn:Hzip.
    + destruct Hc as (nested & Hdata & Hz). rewrite Hdata in IH.
      destruct (IH _ _ i Hz Hi) as (g & at_ & R & E).
      exists g, at_. split; [|exact E].
      eapply reaches_nested; eassumption.
    + subst contents. destruct Hi.
  - exists f, zip_root. split; [apply reaches_record | reflexivity].
Qed.

Lemma analyze_zip_complete root_ z zip_root f at_ :
  zip_reaches z zip_root f at_ ->
  forall items,
    analyze_zip root_ z zip_root = Ok items ->
    In (record_item root_ at_ f) items.
Proof.
  induction 1 as [pre f post zip_root
                 |pre g post zip_root nested f at_ Hzip Hdata R IH];
    intros items H; rewrite analyze_zip_for_each in H;
    apply for_each_split in H;
    destruct H as (before & here & after & _ & Hturn & _ & ->);
    apply zip_turn_Ok in Hturn; destruct Hturn as (contents & -> & Hc);
    apply in_or_app; right; apply in_or_app; left; apply in_or_app.
  - right. left. reflexivity.
  - left. rewrite Hzip in Hc. destruct Hc as (nested' & Hd & Hz).
    rewrite Hdata in Hd. inversion Hd. subst nested'.
    apply IH, Hz.
Qed.

(** What a turn of the tree walker adds when it ends normally. *)
Lemma folder_turn_Ok root_ path_ n here :
  folder_turn root_ path_ n = Ok here ->
  if is_symlink n then here = []
  else exists contents,
         here = (contents ++ [object_item root_ path_ n])%list
         /\ (if is_zip_suffix path_
             then exists zipf,
                    open_zip n = Ok zipf
                    /\ analyze_zip root_ zipf path_ = Ok contents
             else contents = []).
Proof.
  unfold folder_turn. intros H.
  destruct (is_symlink n); [inversion H; reflexivity|].
  destruct (is_zip_suffix path_).
  - destruct (open_zip n) as [zipf|e]; [|discriminate]. cbn [bind] in H.
    destruct (analyze_zip root_ zipf path_) as [contents|e] eqn:Hz;
      [|discriminate].
    cbn [bind] in H. inversion H. exists contents. split; [reflexivity|].
    exists zipf. auto.
  - cbn [bind] in H. inversion H. exists []. auto.
Qed.

(** Every element of a scan that ends normally is the element of a
    yielded object that is not a link, or of a record that the walk of
    an archive file comes to. *)
Lemma analyze_folder_sound root_ tree items i :
  analyze_folder root_ tree = Ok items -> In i items ->
  exists path_ n,
    In (path_, n) (rglob root_ tree)
    /\ is_symlink n = false
    /\ (i = object_item root_ path_ n
        \/ (is_zip_suffix path_ = true
            /\ exists zipf f at_,
                 open_zip n = Ok zipf
                 /\ zip_reaches zipf path_ f at_
                 /\ i = record_item root_ at_ f)).
Proof.
  intros H Hi. unfold analyze_folder, analyze_folder_with in H.
  destruct (analyze_folder_raw root_ tree) as [raw|e] eqn:R; [|discriminate].
  cbn [bind] in H. inversion H as [Hitems]. clear H. subst items.
  apply sort_In in Hi.
  unfold analyze_folder_raw in R. rewrite walk_for_each in R.
  apply (for_each_In _ _ _ i R) in Hi.
  destruct Hi as ([p n] & here & Hx & Hturn & Hi). cbn [fst snd] in Hturn.
  exists p, n. split; [exact Hx|].
  apply folder_turn_Ok in Hturn.
  destruct (is_symlink n); [subst here; destruct Hi|].
  split; [reflexivity|].
  destruct Hturn as (contents & -> & Hc).
  apply in_app_iff in Hi. destruct Hi as [Hi|[<-|[]]]; [|left; reflexivity].
  right. destruct (is_zip_suffix p); [|subst contents; destruct Hi].
  split; [reflexivity|].
  destruct Hc as (zipf & Hopen & Hz).
  destruct (analyze_zip_sound root_ zipf p contents i Hz Hi)
    as (f & at_ & Rz & E).
  exists zipf, f, at_. auto.
Qed.

(** And every such element is in the result. *)
Lemma analyze_folder_complete root_ tree items path_ n :
  analyze_folder root_ tree = Ok items ->
  In (path_, n) (rglob root_ tree) ->
  is_symlink n = false ->
  In (object_item root_ path_ n) items
  /\ forall zipf f at_,
       is_zip_suffix path_ = true ->
       open_zip n = Ok zipf ->
       zip_reaches zipf path_ f at_ ->
       In (record_item root_ at_ f) items.
Proof.
  intros H Hx Hlink. unfold analyze_folder, analyze_folder_with in H.
  destruct (analyze_folder_raw root_ tree) as [raw|e] eqn:R; [|discriminate].
  cbn [bind] in H. inversion H as [Hitems]. clear H.
  unfold analyze_folder_raw in R. rewrite walk_for_each in R.
  pose proof Hx as Hsplit. apply in_split in Hsplit.
  destruct Hsplit as (pre & post & E). rewrite E in R.
  apply for_each_split in R.
  destruct R as (before & here & after & _ & Hturn & _ & ->).
  cbn [fst snd] in Hturn. apply folder_turn_Ok in Hturn.
  rewrite Hlink in Hturn. destruct Hturn as (contents & -> & Hc).
  split.
  - apply sort_In. apply in_or_app. right. apply in_or_app. left.
    apply in_or_app. right. left. reflexivity.
  - intros zipf f at_ Hzip Hopen Rz.
    rewrite Hzip in Hc. destruct Hc as (zipf' & Hopen' & Hz).
    rewrite Hopen in Hopen'. inversion Hopen'. subst zipf'.
    apply sort_In. apply in_or_app. right. apply in_or_app. left.
    apply in_or_app. left.
    eapply analyze_zip_complete; eassumption.
Qed.

(** ** Text and path strings *)

Lemma append_assoc (a b c : string) : ((a ++ b) ++ c = a ++ (b ++ c))%string.
Proof.
  induction a as [|x a IH]; simpl; [reflexivity | rewrite IH; reflexivity].
Qed.

Lemma append_empty (a b : string) :
  (a ++ b)%string = EmptyString -> a = EmptyString /\ b = EmptyString.
Proof.
  destruct a; simpl; [auto | discriminate].
Qed.

Lemma count_append (c : ascii) (a b : string) :
  Text.count c (a ++ b) = Text.count c a + Text.count c b.
Proof.
  induction a as [|x a IH]; simpl; [reflexivity | rewrite IH; lia].
Qed.

Lemma count_nonneg (c : ascii) (a : string) : 0 <= Text.count c a.
Proof.
  induction a as [|x a IH]; simpl; [lia | destruct (Ascii.eqb x c); lia].
Qed.

Lemma lower_append (a b : string) :
  Text.lower (a ++ b) = (Text.lower a ++ Text.lower b)%string.
Proof.
  induction a as [|x a IH]; simpl; [reflexivity | rewrite IH; reflexivity].
Qed.

Lemma ascii_compare_refl (c : ascii) : Ascii.compare c c = Eq.
Proof. unfold Ascii.compare. apply N.compare_refl. Qed.

Lemma leb_common_prefix (p a b : string) :
  String.leb (p ++ a) (p ++ b) = String.leb a b.
Proof.
  unfold String.leb.
  induction p as [|x p IH]; simpl; [reflexivity|].
  rewrite ascii_compare_refl. exact IH.
Qed.

Lemma join_snoc (sep : string) (l : list string) (x : string) :
  Text.join sep (l ++ [x])
  = match l with
    | [] => x
    | _ => (Text.join sep l ++ sep ++ x)%string
    end.
Proof.
  induction l as [|y l IH]; [reflexivity|].
  destruct l as [|z l].
  - reflexivity.
  - change (Text.join sep ((y :: z :: l) ++ [x]))
      with (y ++ sep ++ Text.join sep ((z :: l) ++ [x]))%string.
    rewrite IH.
    change (Text.join sep (y :: z :: l))
      with (y ++ sep ++ Text.join sep (z :: l))%string.
    rewrite !append_assoc. reflexivity.
Qed.

Lemma str_child (p : Path) (nm : string) :
  nm <> EmptyString ->
  PathLib.str (PathLib.child p nm) = (dir_prefix p ++ nm)%string.
Proof.
  intros Hnm. unfold PathLib.str, PathLib.child, dir_prefix. cbn [drv root names].
  rewrite join_snoc.
  destruct (String.eqb_spec (drv p ++ root p) EmptyString) as [E|E].
  - apply append_empty in E. destruct E as [-> ->]. cbn [append].
    destruct (names p) as [|y l].
    + cbn [append]. destruct (String.eqb_spec nm EmptyString); congruence.
    + match goal with |- (if String.eqb ?b _ then _ else _) = _ =>
        destruct (String.eqb_spec b EmptyString) as [B|B] end.
      * apply append_empty in B. destruct B as [_ B].
        apply append_empty in B. destruct B as [B _]. discriminate.
      * rewrite !append_assoc. reflexivity.
  - destruct (names p); rewrite !append_assoc; reflexivity.
Qed.

Lemma name_child (p : Path) (nm : string) :
  PathLib.name (PathLib.child p nm) = nm.
Proof. unfold PathLib.name, PathLib.child. cbn [names]. apply last_last. Qed.

Lemma suffix_child (p : Path) (nm : string) :
  PathLib.suffix (PathLib.child p nm) = PathLib.suffix (mkPath "" "" [nm]).
Proof. unfold PathLib.suffix. rewrite name_child. reflexivity. Qed.

Lemma is_zip_suffix_child (p : Path) (nm : string) :
  is_zip_suffix (PathLib.child p nm) = is_zip_suffix (mkPath "" "" [nm]).
Proof. unfold is_zip_suffix. rewrite suffix_child. reflexivity. Qed.

(** ** Sample data *)

(** ** C2: the order of the result *)

(** The scan of a directory with two plain files, before the sort. *)
Lemma raw_of_two_files root_ st nz sz na sa :
  nz <> EmptyString -> na <> EmptyString ->
  is_zip_suffix (mkPath "" "" [nz]) = false ->
  is_zip_suffix (mkPath "" "" [na]) = false ->
  analyze_folder_raw root_ (Dir st [(nz, File sz None); (na, File sa None)])
  = Ok [Item.init (PathLib.str root_) (dir_prefix root_ ++ nz)
                  (VInt (st_size sz)) (VStr (isoformat (st_mtime sz)));
        Item.init (PathLib.str root_) (dir_prefix root_ ++ na)
                  (VInt (st_size sa)) (VStr (isoformat (st_mtime sa)))].
Proof.
  intros Hz Ha Zz Za.
  unfold analyze_folder_raw, rglob. cbn [follow visit map flat_map fst snd app walk].
  unfold folder_turn, folder_size_token. cbn [is_symlink is_dir stat].
  rewrite !is_zip_suffix_child, Zz, Za. cbn [bind app].
  rewrite !str_child by assumption. reflexivity.
Qed.

(** C2, as the specification words its example, fails: in a root that
    holds Z.txt and a.txt the element of a.txt comes first. *)
Lemma Z_txt_does_not_precede_a_txt :
  exists items,
    analyze_folder sample_root two_files = Ok items
    /\ map Item.name items = ["a.txt"; "Z.txt"].
Proof.
  eexists. split; [vm_compute; reflexivity | reflexivity].
Qed.

(** C2 (amended): whatever the lowering [lower] of [str.lower] is, the
    result of [analyze_folder] is the list built by the traversal,
    rearranged so that the lowered paths ascend, elements with the same
    lowered path keeping their order; in a root that holds the two files
    Z.txt and a.txt, whose paths lower as ASCII text does, a.txt comes
    before Z.txt. *)
Theorem analyze_folder_sorted_by_lower_path
    (lower : string -> string)
    (root_ : Path) (tree : fsnode) (items : list Item.t)
    (H : analyze_folder_with lower root_ tree = Ok items) :
  StronglySorted
    (fun x y => String.leb (lower (Item.path x))
                           (lower (Item.path y)) = true) items
  /\ (exists raw,
        analyze_folder_raw root_ tree = Ok raw
        /\ Permutation raw items
        /\ forall k,
             filter (fun x => String.eqb (lower (Item.path x)) k) items
             = filter (fun x => String.eqb (lower (Item.path x)) k) raw)
  /\ (forall st sz sa,
        tree = Dir st [("Z.txt", File sz None); ("a.txt", File sa None)] ->
        lower (PathLib.str (PathLib.child root_ "Z.txt"))
        = Text.lower (PathLib.str (PathLib.child root_ "Z.txt")) ->
        lower (PathLib.str (PathLib.child root_ "a.txt"))
        = Text.lower (PathLib.str (PathLib.child root_ "a.txt")) ->
        map Item.path items
        = [PathLib.str (PathLib.child root_ "a.txt");
           PathLib.str (PathLib.child root_ "Z.txt")]).
Proof.
  unfold analyze_folder_with in H.
  destruct (analyze_folder_raw root_ tree) as [raw|e] eqn:R; [|discriminate].
  cbn [bind] in H. inversion H as [Hitems]. clear H.
  split; [|split].
  - apply (sort_sorted (fun x => lower (Item.path x))).
  - exists raw. split; [reflexivity|]. split.
    + apply sort_perm.
    + intros k. apply (sort_stable (fun x => lower (Item.path x))).
  - intros st sz sa -> HZ Ha.
    rewrite raw_of_two_files in R by (reflexivity || discriminate).
    inversion R as [Hraw]. clear R.
    rewrite !str_child in * by discriminate.
    cbn [sort insert]. unfold key_le. cbn [Item.path Item.init].
    rewrite HZ, Ha, !lower_append, leb_common_prefix. reflexivity.
Qed.

Lemma analyze_folder_sorted_by_lower_path_witness :
  exists items,
    analyze_folder_with Text.lower sample_root two_files = Ok items
    /\ StronglySorted
         (fun x y => String.leb (Text.lower (Item.path x))
                                (Text.lower (Item.path y)) = true) items
    /\ map Item.name items = ["a.txt"; "Z.txt"].
Proof.
  eexists. split; [reflexivity|]. split.
  - apply (analyze_folder_sorted_by_lower_path Text.lower sample_root two_files).
    reflexivity.
  - reflexivity.
Defined.

(** ** C3: the contents of an archive in the list before the sort *)

(** C3: in the list that a walker builds, the run of elements that the
    archive walker returns for an archive (its records and, through the
    same rule, those of the archives nested in it) stands directly before
    the element of the archive itself.  First conjunct: a nested archive
    met by [analyze_zip]; second: an archive file met by
    [analyze_folder]. *)
Theorem archive_contents_directly_before_archive (root_ : Path) :
  (forall zip_root pre f_name post items,
      is_zip_suffix (PathLib.joinpath zip_root (filename f_name)) = true ->
      analyze_zip root_ (mkZipFile (pre ++ f_name :: post)) zip_root
      = Ok items ->
      exists nested_zip contents before after,
        data f_name = Some nested_zip
        /\ analyze_zip root_ nested_zip
             (PathLib.joinpath zip_root (filename f_name)) = Ok contents
        /\ analyze_zip root_ (mkZipFile pre) zip_root = Ok before
        /\ analyze_zip root_ (mkZipFile post) zip_root = Ok after
        /\ items
           = (before ++ contents
              ++ [Item.init (PathLib.str root_)
                    (PathLib.str (PathLib.joinpath zip_root (filename f_name)))
                    (VStr "ZIP") (tuple_of (date_time f_name))]
              ++ after)%list)
  /\ (forall tree pre path_ n post items,
      rglob root_ tree = (pre ++ (path_, n) :: post)%list ->
      is_symlink n = false ->
      is_zip_suffix path_ = true ->
      analyze_folder_raw root_ tree = Ok items ->
      exists zipf contents before after,
        open_zip n = Ok zipf
        /\ analyze_zip root_ zipf path_ = Ok contents
        /\ walk root_ pre = Ok before
        /\ walk root_ post = Ok after
        /\ items
           = (before ++ contents
              ++ [Item.init (PathLib.str root_) (PathLib.str path_)
                    (VStr "ZIP") (VStr (isoformat (st_mtime (stat n))))]
              ++ after)%list).
Proof.
  split.
  - intros zip_root pre f post items Hzip H.
    rewrite analyze_zip_for_each in H.
    apply for_each_split in H.
    destruct H as (before & here & after & Hpre & Hturn & Hpost & ->).
    unfold zip_turn, zip_size_token in Hturn. rewrite Hzip in Hturn.
    destruct (opened f) as [z|e] eqn:Ho; [|discriminate].
    destruct (analyze_zip root_ z _) as [contents|e] eqn:Hz; [|discriminate].
    cbn [bind] in Hturn. inversion Hturn as [Hhere]. clear Hturn.
    exists z, contents, before, after.
    rewrite !analyze_zip_for_each. rewrite <- app_assoc.
    repeat split; try assumption. apply data_Some, Ho.
  - intros tree pre path_ n post items Hfound Hlink Hzip H.
    unfold analyze_folder_raw in H. rewrite Hfound, walk_for_each in H.
    apply for_each_split in H.
    destruct H as (before & here & after & Hpre & Hturn & Hpost & ->).
    cbn [fst snd] in Hturn.
    unfold folder_turn, folder_size_token in Hturn.
    rewrite Hlink, Hzip in Hturn.
    destruct (open_zip n) as [zipf|e]; [|discriminate].
    cbn [bind] in Hturn.
    destruct (analyze_zip root_ zipf path_) as [contents|e] eqn:Hz;
      [|discriminate].
    cbn [bind] in Hturn. inversion Hturn as [Hhere]. clear Hturn.
    exists zipf, contents, before, after.
    rewrite !walk_for_each. rewrite <- app_assoc.
    repeat split; assumption.
Qed.

Lemma archive_contents_directly_before_archive_witness :
  exists zipf contents before after,
    open_zip (File sample_stat (Some sample_archive)) = Ok zipf
    /\ analyze_zip sample_root zipf (PathLib.child sample_root "arch.ZIP")
       = Ok contents
    /\ walk sample_root
         [(PathLib.child sample_root "b.txt", File sample_stat None)]
       = Ok before
    /\ walk sample_root
         [(PathLib.child sample_root "c.txt", File sample_stat None)]
       = Ok after
    /\ analyze_folder_raw sample_root with_archive
       = Ok (before ++ contents
             ++ [Item.init (PathLib.str sample_root)
                   (PathLib.str (PathLib.child sample_root "arch.ZIP"))
                   (VStr "ZIP") (VStr (isoformat sample_time))]
             ++ after)%list.
Proof.
  destruct (proj2 (archive_contents_directly_before_archive sample_root)
              with_archive
              [(PathLib.child sample_root "b.txt", File sample_stat None)]
              (PathLib.child sample_root "arch.ZIP")
              (File sample_stat (Some sample_archive))
              [(PathLib.child sample_root "c.txt", File sample_stat None)]
              _ eq_refl eq_refl eq_refl eq_refl)
    as (zipf & contents & before & after & H1 & H2 & H3 & H4 & H5).
  exists zipf, contents, before, after.
  repeat split; try assumption.
  exact (f_equal Ok H5).
Defined.

(** ** C4 and C9: the size token *)

(** The token of a record, by cases: the suffix of an archive wins, then
    the trailing slash, then the size. *)
Lemma zip_size_token_cases (f : ZipInfo) (path_ : Path) :
  zip_size_token f path_
  = if is_zip_suffix path_ then VStr "ZIP"
    else if Text.endswith (filename f) Text.slash then VStr "FOLDER"
    else VInt (file_size f).
Proof.
  unfold zip_size_token.
  destruct (is_zip_suffix path_);
    destruct (Text.endswith (filename f) Text.slash); reflexivity.
Qed.

Lemma folder_size_token_cases (n : fsnode) (path_ : Path) :
  folder_size_token n path_
  = if is_zip_suffix path_ then VStr "ZIP"
    else if is_dir n then VStr "FOLDER"
    else VInt (st_size (stat n)).
Proof.
  unfold folder_size_token.
  destruct (is_zip_suffix path_); destruct (is_dir n); reflexivity.
Qed.

(** C4 at a folder record named d.zip/ inside root\a.zip: the name ends
    with the slash, yet the token is ZIP and not FOLDER; the record, which
    holds no archive, is opened as one and the walk ends with
    [BadZipFile]; were its bytes an archive, its element would carry
    ZIP. *)
Theorem folder_record_with_zip_suffix_gets_ZIP :
  let zip_root := PathLib.child sample_root "a.zip" in
  let path_ := PathLib.joinpath zip_root "d.zip/" in
  Text.endswith (filename (folder_named_zip None)) Text.slash = true
  /\ zip_size_token (folder_named_zip None) path_ = VStr "ZIP"
  /\ analyze_zip sample_root (mkZipFile [folder_named_zip None]) zip_root
     = Raise BadZipFile
  /\ (exists item,
        analyze_zip sample_root
          (mkZipFile [folder_named_zip (Some (mkZipFile []))]) zip_root
        = Ok [item]
        /\ Item.size item = "ZIP").
Proof.
  cbv zeta. repeat split.
  eexists. split; reflexivity.
Qed.

(** A record on which [zip_turn] raises ends every walk that comes to it. *)
Lemma zip_reaches_raises root_ z zip_root f at_ e :
  zip_reaches z zip_root f at_ ->
  zip_turn root_ at_ f = Raise e ->
  exists e', analyze_zip root_ z zip_root = Raise e'.
Proof.
  intros R Hf.
  induction R as [pre f post zip_root
                 |pre g post zip_root nested f at_ Hzip Hdata R IH].
  - rewrite analyze_zip_for_each. eapply for_each_raises. exact Hf.
  - destruct (IH Hf) as [e' He'].
    rewrite analyze_zip_for_each.
    apply for_each_raises with (e := e').
    apply data_Some in Hdata.
    unfold zip_turn. rewrite Hzip, Hdata, He'. reflexivity.
Qed.

(** An exception of the archive walker on an archive file ends the scan. *)
Lemma archive_error_ends_scan root_ tree pre path_ n post zipf e :
  rglob root_ tree = (pre ++ (path_, n) :: post)%list ->
  is_symlink n = false ->
  is_zip_suffix path_ = true ->
  open_zip n = Ok zipf ->
  analyze_zip root_ zipf path_ = Raise e ->
  exists e', analyze_folder root_ tree = Raise e'.
Proof.
  intros Hfound Hlink Hzip Hopen Hwalk.
  unfold analyze_folder, analyze_folder_with, analyze_folder_raw.
  rewrite Hfound, walk_for_each.
  destruct (for_each_raises
              (fun x => folder_turn root_ (fst x) (snd x))
              pre post (path_, n) e) as [e' He'].
  - cbn [fst snd]. unfold folder_turn.
    rewrite Hlink, Hzip, Hopen. cbn [bind]. rewrite Hwalk. reflexivity.
  - exists e'. rewrite He'. reflexivity.
Qed.

(** C9, as it is worded, fails: a folder record named d.zip/ whose bytes
    are an archive gets ZIP, is walked as a nested archive, and the scan
    ends normally. *)
Lemma folder_record_holding_archive_does_not_abort :
  Text.endswith (filename (folder_named_zip (Some (mkZipFile [])))) Text.slash
  = true
  /\ is_zip_suffix
       (PathLib.joinpath (PathLib.child sample_root "a.zip") "d.zip/") = true
  /\ exists items,
       analyze_folder sample_root with_folder_record_holding_archive
       = Ok items
       /\ map Item.name items = ["a.zip"; "d.zip"]
       /\ map Item.size items = ["ZIP"; "ZIP"].
Proof.
  split; [reflexivity|]. split; [reflexivity|].
  eexists. split; [reflexivity|]. split; reflexivity.
Qed.

(** C9 (amended): the token is assigned twice in a row, so the suffix of
    an archive overrides FOLDER in both walkers.  A directory whose path
    has that suffix is opened as an archive, which raises and ends the
    scan.  A folder record whose path has that suffix is opened as a
    nested archive: when that raises, as it does with [BadZipFile] on the
    empty bytes of a folder record, the exception ends the walk of every
    archive that comes to the record and the scan of every tree with such
    an archive; when the bytes are an archive, the record is walked as
    one and its element carries ZIP. *)
Theorem zip_suffix_overrides_folder (root_ : Path) :
  (forall n path_,
      is_dir n = true -> is_zip_suffix path_ = true ->
      folder_size_token n path_ = VStr "ZIP")
  /\ (forall f path_,
      Text.endswith (filename f) Text.slash = true ->
      is_zip_suffix path_ = true ->
      zip_size_token f path_ = VStr "ZIP")
  /\ (forall tree pre path_ st es post,
      rglob root_ tree = (pre ++ (path_, Dir st es) :: post)%list ->
      is_zip_suffix path_ = true ->
      folder_turn root_ path_ (Dir st es) = Raise PermissionError
      /\ exists e, analyze_folder root_ tree = Raise e)
  /\ (forall z zip_root f at_ e,
      zip_reaches z zip_root f at_ ->
      Text.endswith (filename f) Text.slash = true ->
      is_zip_suffix (PathLib.joinpath at_ (filename f)) = true ->
      opened f = Raise e ->
      zip_turn root_ at_ f = Raise e
      /\ (exists e', analyze_zip root_ z zip_root = Raise e')
      /\ forall tree pre n post,
           rglob root_ tree = (pre ++ (zip_root, n) :: post)%list ->
           is_symlink n = false ->
           is_zip_suffix zip_root = true ->
           open_zip n = Ok z ->
           exists e', analyze_folder root_ tree = Raise e')
  /\ (forall zip_root f nested contents,
      Text.endswith (filename f) Text.slash = true ->
      is_zip_suffix (PathLib.joinpath zip_root (filename f)) = true ->
      opened f = Ok nested ->
      analyze_zip root_ nested (PathLib.joinpath zip_root (filename f))
      = Ok contents ->
      forall pre post before after,
        analyze_zip root_ (mkZipFile pre) zip_root = Ok before ->
        analyze_zip root_ (mkZipFile post) zip_root = Ok after ->
        analyze_zip root_ (mkZipFile (pre ++ f :: post)) zip_root
        = Ok (before ++ contents
              ++ [Item.init (PathLib.str root_)
                    (PathLib.str (PathLib.joinpath zip_root (filename f)))
                    (VStr "ZIP") (tuple_of (date_time f))]
              ++ after)%list).
Proof.
  repeat apply conj.
  - intros n path_ _ Hzip. rewrite folder_size_token_cases, Hzip. reflexivity.
  - intros f path_ _ Hzip. rewrite zip_size_token_cases, Hzip. reflexivity.
  - intros tree pre path_ st es post Hfound Hzip.
    assert (Hturn : folder_turn root_ path_ (Dir st es) = Raise PermissionError).
    { unfold folder_turn. cbn [is_symlink]. rewrite Hzip. reflexivity. }
    split; [exact Hturn|].
    unfold analyze_folder, analyze_folder_with, analyze_folder_raw.
    rewrite Hfound, walk_for_each.
    destruct (for_each_raises
                (fun x => folder_turn root_ (fst x) (snd x))
                pre post (path_, Dir st es) PermissionError Hturn)
      as [e He].
    exists e. rewrite He. reflexivity.
  - intros z zip_root f at_ e R _ Hzip Hopened.
    assert (Hturn : zip_turn root_ at_ f = Raise e).
    { unfold zip_turn. rewrite Hzip, Hopened. reflexivity. }
    split; [exact Hturn|].
    destruct (zip_reaches_raises root_ z zip_root f at_ e R Hturn)
      as [e' He'].
    split; [exists e'; exact He'|].
    intros tree pre n post Hfound Hlink Hroot Hopen.
    eapply archive_error_ends_scan; eassumption.
  - intros zip_root f nested contents _ Hzip Hopened Hnested
           pre post before after Hpre Hpost.
    rewrite analyze_zip_for_each in *.
    rewrite for_each_app, Hpre. cbn [bind for_each].
    unfold zip_turn at 1. rewrite Hzip, Hopened, Hnested. cbn [bind].
    rewrite Hpost. cbn [bind].
    rewrite zip_size_token_cases, Hzip, <- !app_assoc. reflexivity.
Qed.

Lemma zip_suffix_overrides_folder_witness :
  (exists e, analyze_folder sample_root with_dir_named_zip = Raise e)
  /\ (exists e,
        analyze_folder sample_root with_folder_record_named_zip = Raise e).
Proof.
  destruct (zip_suffix_overrides_folder sample_root)
    as (_ & _ & Hdir & Hrec & _).
  split.
  - apply (Hdir with_dir_named_zip
             [(PathLib.child sample_root "b.txt", File sample_stat None)]
             (PathLib.child sample_root "d.zip") sample_stat [] []);
      reflexivity.
  - destruct (Hrec (mkZipFile [mkZipInfo "x.txt" 5 sample_zip_time
                                 (Raise BadZipFile);
                               folder_named_zip None])
                   (PathLib.child sample_root "a.zip")
                   (folder_named_zip None)
                   (PathLib.child sample_root "a.zip")
                   BadZipFile) as (_ & _ & Hscan).
    + apply (reaches_record
               [mkZipInfo "x.txt" 5 sample_zip_time (Raise BadZipFile)]
               (folder_named_zip None) []).
    + reflexivity.
    + reflexivity.
    + reflexivity.
    + apply (Hscan with_folder_record_named_zip []
               (File sample_stat
                  (Some (mkZipFile [mkZipInfo "x.txt" 5 sample_zip_time
                                      (Raise BadZipFile);
                                    folder_named_zip None]))) []);
        reflexivity.
Defined.

(** ** C5: symbolic links *)

Lemma follow_without_links (n : fsnode) :
  follow (without_links n) = without_links (follow n).
Proof.
  induction n as [st a|st es|t IH]; simpl; [reflexivity | reflexivity | exact IH].
Qed.

Lemma bind_Ok_id {A : Type} (r : result A) : (x <- r ;; Ok x) = r.
Proof. destruct r; reflexivity. Qed.

(** A turn sees of an object only what links do not change. *)
Lemma folder_turn_without_links root_ path_ n :
  is_symlink n = false ->
  folder_turn root_ path_ (without_links n) = folder_turn root_ path_ n.
Proof.
  destruct n as [st a|st es|t]; intros H; [reflexivity | reflexivity | discriminate].
Qed.

Section links.
Variable root_ : Path.

Let turn (e : Path * fsnode) : result (list Item.t) :=
  folder_turn root_ (fst e) (snd e).

Lemma entries_without_links (p : Path) (es : list (string * fsnode)) :
  for_each turn
    (map (fun e => (PathLib.child p (fst e), snd e))
         (flat_map (fun e => if is_symlink (snd e) then []
                             else [(fst e, without_links (snd e))]) es))
  = for_each turn (map (fun e => (PathLib.child p (fst e), snd e)) es).
Proof.
  induction es as [|[nm c] es IH]; [reflexivity|].
  cbn [flat_map map fst snd for_each].
  destruct (is_symlink c) eqn:L.
  - cbn [app]. rewrite IH. unfold turn at 2. cbn [fst snd].
    unfold folder_turn. rewrite L. cbn [bind app].
    rewrite bind_Ok_id. reflexivity.
  - cbn [app map fst snd for_each]. rewrite IH.
    unfold turn at 1 3. cbn [fst snd].
    rewrite folder_turn_without_links by exact L. reflexivity.
Qed.

Lemma visit_without_links (n : fsnode) :
  forall p, for_each turn (visit p (without_links n))
            = for_each turn (visit p n).
Proof.
  induction n as [st a|st es IH|t IH] using fsnode_nested_ind; intros p.
  - reflexivity.
  - cbn [without_links visit].
    rewrite !for_each_app, entries_without_links.
    f_equal.
    assert (E : for_each turn
                  (flat_map (fun e => visit (PathLib.child p (fst e)) (snd e))
                     (flat_map (fun e => if is_symlink (snd e) then []
                                else [(fst e, without_links (snd e))]) es))
                = for_each turn
                    (flat_map
                       (fun e => visit (PathLib.child p (fst e)) (snd e)) es)).
    { induction IH as [|[nm c] es Hc Hes IHes]; [reflexivity|].
      cbn [flat_map fst snd].
      destruct c as [st' a|st' es'|t]; cbn [is_symlink app].
      - cbn [flat_map fst snd without_links visit app]. exact IHes.
      - cbn [flat_map fst snd app].
        rewrite !for_each_app, IHes.
        cbn [snd] in Hc. rewrite Hc. reflexivity.
      - cbn [visit app]. exact IHes. }
    rewrite E. reflexivity.
  - reflexivity.
Qed.
End links.

Example scan_with_links :
  exists item,
    analyze_folder sample_root with_links = Ok [item]
    /\ Item.name item = "b.txt".
Proof. eexists. split; reflexivity. Qed.

(** C5: a turn of the tree walker on a symbolic link adds no element, the
    traversal does not list what a link points to, and so the scan of a
    tree is the scan of the tree with its links, and all that only they
    lead to, taken out. *)
Theorem symlinks_yield_no_entries (root_ : Path) (tree : fsnode) :
  (forall path_ target, folder_turn root_ path_ (Symlink target) = Ok [])
  /\ (forall path_ target, visit path_ (Symlink target) = [])
  /\ analyze_folder_raw root_ tree
     = analyze_folder_raw root_ (without_links tree)
  /\ analyze_folder root_ tree = analyze_folder root_ (without_links tree).
Proof.
  assert (R : analyze_folder_raw root_ tree
              = analyze_folder_raw root_ (without_links tree)).
  { unfold analyze_folder_raw, rglob.
    rewrite follow_without_links, !walk_for_each.
    symmetry. apply visit_without_links. }
  repeat split.
  - exact R.
  - unfold analyze_folder, analyze_folder_with. rewrite R. reflexivity.
Qed.

(** ** C7: a report format that is not supported *)

(** C7: when the lower-cased suffix of the report path is none of .docx,
    .xlsx, .pdf, .csv, .json, a run of [main] saves no file, and it ends
    in one of three ways, each an error shown to the user: the two lines
    about the folder are printed, or the two lines about the format, the
    first of them with the suffix between quotes, or the exception that
    ended the scan leaves [main]; after a scan that returns, the run
    prints the two lines about the format and nothing else. *)
Theorem unsupported_format_saves_nothing
    (folder_path report_path : Path) (tree : option fsnode)
    (H : supported (Text.lower (PathLib.suffix report_path)) = false) :
  saved (fst (main folder_path report_path tree)) = []
  /\ (main folder_path report_path tree
      = ([Print "Ошибка: указанный путь не является папкой или не существует.";
          Print "Укажите корректный путь к анализируемой папке."], Returned)
      \/ main folder_path report_path tree
         = ([Print ("Ошибка: указан некорректный формат отчёта: "
                     ++ quote ++ Text.lower (PathLib.suffix report_path)
                     ++ quote ++ ".");
              Print ("Укажите корректный формат отчёта ("
                     ++ quote ++ ".csv" ++ quote ++ ", "
                     ++ quote ++ ".json" ++ quote ++ ", "
                     ++ quote ++ ".docx" ++ quote ++ ", "
                     ++ quote ++ ".xlsx" ++ quote ++ ", "
                     ++ quote ++ ".pdf" ++ quote
                     ++ ") и попробуйте ещё раз.")], Returned)
      \/ exists e, main folder_path report_path tree = ([], Uncaught e))
  /\ (forall t data,
        tree = Some t -> is_dir t = true ->
        analyze_folder folder_path t = Ok data ->
        main folder_path report_path tree
        = ([Print ("Ошибка: указан некорректный формат отчёта: "
                     ++ quote ++ Text.lower (PathLib.suffix report_path)
                     ++ quote ++ ".");
              Print ("Укажите корректный формат отчёта ("
                     ++ quote ++ ".csv" ++ quote ++ ", "
                     ++ quote ++ ".json" ++ quote ++ ", "
                     ++ quote ++ ".docx" ++ quote ++ ", "
                     ++ quote ++ ".xlsx" ++ quote ++ ", "
                     ++ quote ++ ".pdf" ++ quote
                     ++ ") и попробуйте ещё раз.")], Returned)).
Proof.
  unfold supported in H. cbn [existsb] in H.
  repeat (apply orb_false_elim in H; destruct H as [? H]).
  assert (M : forall t data,
             tree = Some t -> is_dir t = true ->
             analyze_folder folder_path t = Ok data ->
             main folder_path report_path tree
             = (invalid_format_report (Text.lower (PathLib.suffix report_path)),
                Returned)).
  { intros t data -> Hd Ha. unfold main. rewrite Hd, Ha. cbn [negb].
    repeat match goal with E : String.eqb _ _ = false |- _ =>
      rewrite E; clear E end.
    reflexivity. }
  split; [|split; [|exact M]].
  - destruct tree as [t|]; [|reflexivity].
    destruct (is_dir t) eqn:Hd.
    + destruct (analyze_folder folder_path t) as [data|e] eqn:Ha.
      * rewrite (M t data eq_refl Hd Ha). reflexivity.
      * unfold main. rewrite Hd, Ha. reflexivity.
    + unfold main. rewrite Hd. reflexivity.
  - destruct tree as [t|]; [|left; reflexivity].
    destruct (is_dir t) eqn:Hd.
    + destruct (analyze_folder folder_path t) as [data|e] eqn:Ha.
      * right; left. exact (M t data eq_refl Hd Ha).
      * right; right. exists e. unfold main. rewrite Hd, Ha. reflexivity.
    + left. unfold main. rewrite Hd. reflexivity.
Qed.

Lemma unsupported_format_saves_nothing_witness :
  saved (fst (main sample_root (mkPath "" "" ["report.txt"]) (Some two_files)))
  = []
  /\ main sample_root (mkPath "" "" ["report.txt"]) (Some two_files)
     = ([Print ("Ошибка: указан некорректный формат отчёта: "
                ++ quote ++ ".txt" ++ quote ++ ".");
         Print ("Укажите корректный формат отчёта ("
                ++ quote ++ ".csv" ++ quote ++ ", "
                ++ quote ++ ".json" ++ quote ++ ", "
                ++ quote ++ ".docx" ++ quote ++ ", "
                ++ quote ++ ".xlsx" ++ quote ++ ", "
                ++ quote ++ ".pdf" ++ quote
                ++ ") и попробуйте ещё раз.")], Returned).
Proof.
  destruct (unsupported_format_saves_nothing
              sample_root (mkPath "" "" ["report.txt"]) (Some two_files)
              eq_refl) as (Hs & _ & Hm).
  split; [exact Hs|].
  exact (Hm two_files _ eq_refl eq_refl eq_refl).
Defined.

(** ** C8: the JSON report *)

Lemma saved_after_prints {X : Type} (f : X -> string) (l : list X) rest :
  saved (map (fun x => Print (f x)) l ++ rest) = saved rest.
Proof.
  induction l as [|x l IH]; [reflexivity | exact IH].
Qed.

Lemma forallb_item_shape (data : list Item.t) :
  forallb item_shape (map json_item data) = true.
Proof.
  induction data as [|d data IH]; [reflexivity | exact IH].
Qed.

(** C8: [write_json] saves one file, at the report path; what it holds
    has the shape of the report; its [folder] is the root as a string;
    its [items] has one object for each element, in the order of the
    list, with the fields of that element; and [size] is a string also
    for an element made from a byte count. *)
Theorem write_json_shape
    (folder_path report_path : Path) (data : list Item.t) :
  exists output items,
    saved (write_json folder_path report_path data)
    = [(report_path, JsonFile output)]
    /\ report_shape output = true
    /\ field "folder" output = Some (JString (PathLib.str folder_path))
    /\ field "items" output = Some (JArray items)
    /\ List.length items = List.length data
    /\ (forall k d, nth_error data k = Some d ->
          exists j, nth_error items k = Some j
            /\ item_shape j = true
            /\ field "level" j = Some (JInt (Item.level d))
            /\ field "name" j = Some (JString (Item.name d))
            /\ field "size" j = Some (JString (Item.size d))
            /\ field "time" j = Some (JString (Item.time d))
            /\ field "path" j = Some (JString (Item.path d)))
    /\ (forall root_path path_ n time_,
          field "size" (json_item (Item.init root_path path_ (VInt n) time_))
          = Some (JString (Text.str_int n))).
Proof.
  exists (json_output folder_path data), (map json_item data).
  repeat apply conj.
  - unfold write_json. rewrite saved_after_prints. reflexivity.
  - unfold json_output, report_shape, field_is. cbn [fst snd is_string].
    rewrite forallb_item_shape. reflexivity.
  - reflexivity.
  - reflexivity.
  - apply length_map.
  - intros k d Hk. exists (json_item d).
    rewrite nth_error_map, Hk. repeat split.
  - reflexivity.
Qed.

(** ** C10: the two forms of the time field *)






(** A scan that holds elements of both forms. *)
Example time_fields_of_a_scan :
  exists items,
    analyze_folder sample_root with_archive = Ok items
    /\ map (fun i => (Item.name i, Item.time i)) items
       = [("arch.ZIP", "2024-01-02T03:04:05");
          ("d", "(1980, 1, 1, 0, 0, 0)");
          ("inner.zip", "(1980, 1, 1, 0, 0, 0)");
          ("leaf.txt", "(1980, 1, 1, 0, 0, 0)");
          ("x.txt", "(1980, 1, 1, 0, 0, 0)");
          ("b.txt", "2024-01-02T03:04:05");
          ("c.txt", "2024-01-02T03:04:05")].
Proof.
  eexists. split; [reflexivity|]. vm_compute. reflexivity.
Qed.

(** ** C1 and C6: the level *)

Lemma separators_append (a b : string) :
  separators (a ++ b) = separators a + separators b.
Proof. apply count_append. Qed.

Lemma join_app (sep : string) (l e : list string) :
  l <> [] -> e <> [] ->
  Text.join sep (l ++ e) = (Text.join sep l ++ sep ++ Text.join sep e)%string.
Proof.
  intros Hl He. induction l as [|x l IH]; [congruence|].
  destruct l as [|y l].
  - destruct e as [|z e]; [congruence | reflexivity].
  - change (Text.join sep ((x :: y :: l) ++ e))
      with (x ++ sep ++ Text.join sep ((y :: l) ++ e))%string.
    rewrite IH by discriminate.
    change (Text.join sep (x :: y :: l))
      with (x ++ sep ++ Text.join sep (y :: l))%string.
    rewrite !append_assoc. reflexivity.
Qed.

Lemma separators_sep : separators PathLib.sep = 1.
Proof. reflexivity. Qed.

(** The separators of a path string: those of the drive and the root,
    and those of the joined names. *)
Lemma separators_str (p : Path) :
  separators (PathLib.str p)
  = separators (drv p) + separators (root p)
    + separators (Text.join PathLib.sep (names p)).
Proof.
  unfold PathLib.str.
  destruct (String.eqb_spec (drv p ++ root p) EmptyString) as [E|E].
  - apply append_empty in E. destruct E as [-> ->].
    destruct (String.eqb_spec (Text.join PathLib.sep (names p)) EmptyString)
      as [B|B]; [rewrite B|]; reflexivity.
  - rewrite !separators_append. lia.
Qed.

Lemma below_child_of_root root_ nm : below root_ (PathLib.child root_ nm).
Proof.
  repeat split. exists [nm]. split; [discriminate | reflexivity].
Qed.

Lemma below_child root_ p nm : below root_ p -> below root_ (PathLib.child p nm).
Proof.
  intros (Hd & Hr & extra & He & Hn). repeat split; try assumption.
  exists (extra ++ [nm])%list. split.
  - destruct extra; discriminate.
  - cbn [PathLib.child names]. rewrite Hn, app_assoc. reflexivity.
Qed.

(** The level of a path strictly below a root that has a name: the
    separators among and inside the names added to the root. *)
Lemma separators_below root_ p :
  names root_ <> [] -> below root_ p ->
  exists extra,
    extra <> [] /\ names p = (names root_ ++ extra)%list
    /\ separators (PathLib.str p) - separators (PathLib.str root_) - 1
       = separators (Text.join PathLib.sep extra).
Proof.
  intros Hroot (Hd & Hr & extra & He & Hn).
  exists extra. repeat split; try assumption.
  rewrite !separators_str, Hd, Hr, Hn, join_app by assumption.
  rewrite !separators_append, separators_sep. lia.
Qed.

(** Every path that the traversal yields lies strictly below the root. *)
Lemma visit_below root_ (n : fsnode) :
  forall p, p = root_ \/ below root_ p ->
            Forall (fun e => below root_ (fst e)) (visit p n).
Proof.
  induction n as [st a|st es IH|t IH] using fsnode_nested_ind; intros p Hp.
  - constructor.
  - assert (Hc : forall nm, below root_ (PathLib.child p nm)).
    { intros nm. destruct Hp as [->|Hp];
        [apply below_child_of_root | apply below_child, Hp]. }
    cbn [visit]. apply Forall_app. split.
    + clear IH. induction es as [|e es IHes]; constructor.
      * apply Hc.
      * exact IHes.
    + induction IH as [|e es He Hes IHes]; cbn [flat_map].
      * constructor.
      * apply Forall_app. split; [|exact IHes].
        apply He. right. apply Hc.
  - constructor.
Qed.

(** C1: at a root given as a dot the level that the script computes is
    not the level that the specification defines.  The element of a.txt
    gets level -1, while the separators of C:\work\a.txt less those of
    C:\work less one are 0; and in a root that holds a\b\file.txt the
    elements of a, b and file.txt get the levels -1, 0 and 1, where the
    specification has 0, 1 and 2. *)
Theorem level_is_not_absolute_difference_at_dot :
  (exists item,
      analyze_folder dot_root one_file = Ok [item]
      /\ Item.path item = PathLib.str (PathLib.child dot_root "a.txt")
      /\ Item.level item = -1
      /\ separators
           (PathLib.str
              (PathLib.absolute work_dir (PathLib.child dot_root "a.txt")))
         - separators (PathLib.str (PathLib.absolute work_dir dot_root)) - 1
         = 0)
  /\ (exists items,
        analyze_folder dot_root
          (chain sample_stat sample_stat sample_stat sample_stat) = Ok items
        /\ map (fun i => (Item.name i, Item.level i)) items
           = [("a", -1); ("b", 0); ("file.txt", 1)]).
Proof.
  split.
  - eexists. repeat split.
  - eexists. split; reflexivity.
Qed.

(** ** C6: a level below zero *)

(** C6 at a root given as a dot (and likewise at the root of a drive):
    the file a.txt lies strictly inside the root, and its element has
    level -1. *)
Theorem level_is_negative_under_dot_root :
  (exists item,
      analyze_folder dot_root one_file = Ok [item]
      /\ Item.name item = "a.txt"
      /\ Item.level item = -1)
  /\ (exists item,
      analyze_folder (mkPath "C:" PathLib.sep []) one_file = Ok [item]
      /\ Item.name item = "a.txt"
      /\ Item.level item = -1).
Proof.
  split; eexists; repeat split.
Qed.

(** * Further properties *)

(** ** The name of an element *)

Lemma split_not_nil (c : ascii) (s : string) : Text.split c s <> [].
Proof.
  induction s as [|a s IH]; cbn [Text.split]; [discriminate|].
  destruct (Ascii.eqb a c); [discriminate|].
  destruct (Text.split c s); discriminate.
Qed.

(** A string without the separator is one piece. *)
Lemma split_plain (c : ascii) (s : string) :
  Text.count c s = 0 -> Text.split c s = [s].
Proof.
  induction s as [|a s IH]; cbn [Text.split Text.count]; [reflexivity|].
  pose proof (count_nonneg c s) as N.
  destruct (Ascii.eqb a c); intros H; [lia|].
  rewrite IH by lia. reflexivity.
Qed.

(** No piece of a split holds the separator. *)
Lemma split_pieces_plain (c : ascii) (s : string) :
  Forall (fun x => Text.count c x = 0) (Text.split c s).
Proof.
  induction s as [|a s IH]; cbn [Text.split].
  - repeat constructor.
  - destruct (Ascii.eqb a c) eqn:E.
    + constructor; [reflexivity | exact IH].
    + destruct (Text.split c s) as [|h t].
      * repeat constructor. cbn [Text.count]. rewrite E. reflexivity.
      * inversion IH as [|? ? Hh Ht]. constructor; [|exact Ht].
        cbn [Text.count]. rewrite E, Hh. reflexivity.
Qed.

Lemma last_after {A : Type} (front l : list A) (d : A) :
  l <> [] -> last (front ++ l) d = last l d.
Proof.
  intros Hl. induction front as [|x front IH]; [reflexivity|].
  cbn [app]. rewrite <- IH.
  destruct (front ++ l)%list eqn:E; [|reflexivity].
  apply app_eq_nil in E. destruct E. contradiction.
Qed.

(** The pieces of what follows a separator end the pieces of the whole. *)
Lemma split_append_sep (c : ascii) (a b : string) :
  exists front,
    front <> []
    /\ Text.split c (a ++ String c b) = (front ++ Text.split c b)%list.
Proof.
  induction a as [|x a IH]; cbn [append Text.split].
  - rewrite Ascii.eqb_refl. exists [EmptyString]. split; [discriminate | reflexivity].
  - destruct IH as (front & Hf & E). rewrite E.
    destruct (Ascii.eqb x c).
    + exists (EmptyString :: front). split; [discriminate | reflexivity].
    + destruct front as [|f fr]; [congruence|].
      exists (String x f :: fr). split; [discriminate | reflexivity].
Qed.

(** The last piece of a string is the last piece of what follows a
    separator in it. *)
Lemma last_piece_after (c : ascii) (a b : string) :
  Text.last_piece (Text.split c (a ++ String c b))
  = Text.last_piece (Text.split c b).
Proof.
  unfold Text.last_piece.
  destruct (split_append_sep c a b) as (front & _ & ->).
  apply last_after, split_not_nil.
Qed.

Lemma last_piece_plain (s : string) :
  is_plain s = true ->
  Text.last_piece (Text.split Text.backslash s) = s.
Proof.
  unfold is_plain, separators. intros H. apply Z.eqb_eq in H.
  rewrite split_plain by exact H. reflexivity.
Qed.

(** The string of a path with at least two names: the last name follows
    a backslash. *)
Lemma str_snoc (d r : string) (l : list string) (nm : string) :
  l <> [] ->
  PathLib.str (mkPath d r (l ++ [nm]))
  = ((d ++ r ++ Text.join PathLib.sep l) ++ String Text.backslash nm)%string.
Proof.
  intros Hl. unfold PathLib.str. cbn [drv root names].
  rewrite join_snoc. destruct l as [|y l]; [congruence|].
  destruct (String.eqb_spec (d ++ r) EmptyString) as [E|E].
  - apply append_empty in E. destruct E as [-> ->]. cbn [append].
    match goal with |- (if String.eqb ?b _ then _ else _) = _ =>
      destruct (String.eqb_spec b EmptyString) as [B|B] end.
    + apply append_empty in B. destruct B as [_ B]. discriminate.
    + reflexivity.
  - rewrite !append_assoc. reflexivity.
Qed.

(** ** Plain names *)

(** Joined plain names hold one backslash less than there are names. *)
Lemma separators_join_plain (l : list string) :
  Forall (fun x => is_plain x = true) l ->
  separators (Text.join PathLib.sep l) = Z.max 0 (Z.of_nat (List.length l) - 1).
Proof.
  induction 1 as [|x l Hx Hl IH]; [reflexivity|].
  unfold is_plain in Hx. apply Z.eqb_eq in Hx.
  destruct l as [|y l].
  - cbn [Text.join List.length]. rewrite Hx. reflexivity.
  - change (Text.join PathLib.sep (x :: y :: l))
      with (x ++ PathLib.sep ++ Text.join PathLib.sep (y :: l))%string.
    rewrite !separators_append, separators_sep, IH, Hx.
    cbn [List.length]. lia.
Qed.

Lemma plainly_below_is_below root_ p extra :
  plainly_below root_ p extra -> below root_ p.
Proof.
  intros (He & _ & ->). repeat split. exists extra. auto.
Qed.

Lemma plainly_below_child root_ p extra nm :
  is_plain nm = true ->
  plainly_below root_ p extra ->
  plainly_below root_ (PathLib.child p nm) (extra ++ [nm]).
Proof.
  intros Hnm (He & Hp & ->). repeat split.
  - destruct extra; discriminate.
  - apply Forall_app. split; [exact Hp | repeat constructor; exact Hnm].
  - unfold PathLib.child. cbn [drv root names]. rewrite app_assoc. reflexivity.
Qed.

Lemma plainly_below_child_of_root root_ nm :
  is_plain nm = true -> plainly_below root_ (PathLib.child root_ nm) [nm].
Proof.
  intros Hnm. repeat split; [discriminate | repeat constructor; exact Hnm].
Qed.

(** In a tree of plain names every yielded path is plainly below the
    root. *)
Lemma visit_plainly_below root_ (n : fsnode) :
  plain_tree n = true ->
  forall p, p = root_ \/ (exists extra, plainly_below root_ p extra) ->
    Forall (fun e => exists extra, plainly_below root_ (fst e) extra)
           (visit p n).
Proof.
  induction n as [st a|st es IH|t IH] using fsnode_nested_ind;
    intros Hplain p Hp.
  - constructor.
  - assert (Hc : forall nm, is_plain nm = true ->
                   exists extra, plainly_below root_ (PathLib.child p nm) extra).
    { intros nm Hnm. destruct Hp as [->|[extra Hp]].
      - exists [nm]. apply plainly_below_child_of_root, Hnm.
      - exists (extra ++ [nm])%list. apply plainly_below_child; assumption. }
    cbn [plain_tree] in Hplain. rewrite forallb_forall in Hplain.
    cbn [visit]. apply Forall_app. split.
    + apply Forall_forall. intros e He.
      apply in_map_iff in He. destruct He as (e0 & <- & He0).
      cbn [fst]. apply Hc.
      apply Hplain in He0. apply andb_prop in He0. apply He0.
    + rewrite Forall_forall in IH.
      apply Forall_forall. intros e He.
      apply in_flat_map in He. destruct He as (e0 & He0 & He).
      pose proof (Hplain e0 He0) as P. apply andb_prop in P.
      destruct P as [P1 P2].
      pose proof (IH e0 He0 P2 (PathLib.child p (fst e0))
                     (or_intror (Hc (fst e0) P1))) as F.
      rewrite Forall_forall in F. apply F, He.
  - constructor.
Qed.

Lemma follow_plain (n : fsnode) : plain_tree n = true -> plain_tree (follow n) = true.
Proof.
  induction n as [st a|st es|t IH]; cbn [follow plain_tree]; auto.
Qed.

(** The level of an element made plainly below a root that has a name. *)
Lemma level_plainly_below root_ p extra size_ time_ :
  names root_ <> [] ->
  plainly_below root_ p extra ->
  Item.level (Item.init (PathLib.str root_) (PathLib.str p) size_ time_)
  = Z.of_nat (List.length extra) - 1.
Proof.
  intros Hroot Hb.
  destruct (separators_below root_ p Hroot (plainly_below_is_below _ _ _ Hb))
    as (extra' & _ & Hn & E).
  destruct Hb as (He & Hp & ->). cbn [names] in Hn.
  apply app_inv_head in Hn. subst extra'.
  cbn [Item.level Item.init]. unfold separators in E. rewrite E.
  fold (separators (Text.join PathLib.sep extra)).
  rewrite separators_join_plain by exact Hp.
  destruct extra; [congruence|]. cbn [List.length]. lia.
Qed.

(** The name of an element made plainly below a root that has a name. *)
Lemma name_plainly_below root_ p extra size_ time_ :
  names root_ <> [] ->
  plainly_below root_ p extra ->
  Item.name (Item.init (PathLib.str root_) (PathLib.str p) size_ time_)
  = PathLib.name p.
Proof.
  intros Hroot (He & Hp & ->).
  destruct (exists_last He) as (front & nm & ->).
  apply Forall_app in Hp. destruct Hp as [_ Hnm].
  inversion Hnm as [|? ? Pnm _].
  cbn [Item.name Item.init]. unfold PathLib.name. cbn [names].
  rewrite app_assoc, last_last, str_snoc.
  - rewrite last_piece_after. apply last_piece_plain, Pnm.
  - intros E. apply app_eq_nil in E. destruct E. contradiction.
Qed.

(** ** Member names that are relative *)

Lemma path_eta (p : Path) : p = mkPath (drv p) (root p) (names p).
Proof. destruct p; reflexivity. Qed.

(** A relative name adds its names to the path. *)
Lemma joinpath_relative (p : Path) (s : string) :
  PathLib.relative_name s = true ->
  PathLib.joinpath p s
  = mkPath (drv p) (root p) (names p ++ PathLib.member_names s).
Proof.
  unfold PathLib.relative_name, PathLib.joinpath, PathLib.member_names.
  destruct (PathLib.parse s) as [[d r] ns]. cbn [fst snd].
  intros H. apply andb_prop in H. destruct H as [Hd Hr].
  apply String.eqb_eq in Hd, Hr. subst d r. reflexivity.
Qed.

(** The names that a string adds hold no backslash. *)
Lemma member_names_plain (s : string) :
  Forall (fun x => is_plain x = true) (PathLib.member_names s).
Proof.
  unfold PathLib.member_names, PathLib.parse.
  destruct (PathLib.splitroot _) as [[d r] rel]. cbn [snd].
  apply Forall_forall. intros x Hx. apply filter_In in Hx.
  destruct Hx as [Hx _].
  pose proof (split_pieces_plain Text.backslash rel) as F.
  rewrite Forall_forall in F.
  unfold is_plain, separators. rewrite (F x Hx). reflexivity.
Qed.

Lemma relative_members_In (l : list ZipInfo) (f : ZipInfo) :
  relative_members (mkZipFile l) = true -> In f l ->
  PathLib.relative_name (filename f) = true
  /\ forall nested, opened f = Ok nested -> relative_members nested = true.
Proof.
  cbn [relative_members]. intros H Hf. rewrite forallb_forall in H.
  specialize (H f Hf). apply andb_prop in H. destruct H as [H1 H2].
  split; [exact H1|]. intros nested E. rewrite E in H2. exact H2.
Qed.

Lemma reaches_relative_name z zip_root f at_ :
  zip_reaches z zip_root f at_ -> relative_members z = true ->
  PathLib.relative_name (filename f) = true.
Proof.
  induction 1 as [pre f post zip_root
                 |pre g post zip_root nested f at_ Hzip Hdata R IH];
    intros Hrel.
  - apply (relative_members_In _ f Hrel (in_elt f pre post)).
  - apply IH. apply data_Some in Hdata.
    apply (relative_members_In _ g Hrel (in_elt g pre post)), Hdata.
Qed.

(** Where a walk over relative names comes to a record, the archive of
    the record is mounted at the path of the walk with plain names
    added, and the record adds its own. *)
Lemma reaches_extends z zip_root f at_ :
  zip_reaches z zip_root f at_ -> relative_members z = true ->
  exists more,
    Forall (fun x => is_plain x = true) more
    /\ at_ = mkPath (drv zip_root) (root zip_root) (names zip_root ++ more)
    /\ PathLib.joinpath at_ (filename f)
       = mkPath (drv zip_root) (root zip_root)
           (names zip_root ++ more ++ PathLib.member_names (filename f)).
Proof.
  induction 1 as [pre f post zip_root
                 |pre g post zip_root nested f at_ Hzip Hdata R IH];
    intros Hrel.
  - destruct (relative_members_In _ f Hrel (in_elt f pre post)) as [Hf _].
    exists []. split; [constructor|].
    rewrite app_nil_r. split; [apply path_eta|].
    apply joinpath_relative, Hf.
  - destruct (relative_members_In _ g Hrel (in_elt g pre post)) as [Hg Hn].
    apply data_Some in Hdata.
    destruct (IH (Hn _ Hdata)) as (more & Hm & E1 & E2).
    rewrite (joinpath_relative zip_root _ Hg) in E1, E2.
    cbn [drv root names] in E1, E2.
    exists (PathLib.member_names (filename g) ++ more)%list.
    split; [apply Forall_app; split; [apply member_names_plain | exact Hm]|].
    split; [rewrite E1 | rewrite E2]; rewrite <- !app_assoc; reflexivity.
Qed.

Lemma follow_relative (n : fsnode) :
  relative_archives n = true -> relative_archives (follow n) = true.
Proof.
  induction n as [st a|st es|t IH]; cbn [follow relative_archives]; auto.
Qed.

Lemma visit_relative (n : fsnode) :
  relative_archives n = true ->
  forall p, Forall (fun e => relative_archives (snd e) = true) (visit p n).
Proof.
  induction n as [st a|st es IH|t IH] using fsnode_nested_ind;
    intros Hrel p; cbn [visit]; try constructor.
  cbn [relative_archives] in Hrel. rewrite forallb_forall in Hrel.
  rewrite Forall_forall in IH.
  apply Forall_app. split; apply Forall_forall; intros e He.
  - apply in_map_iff in He. destruct He as (e0 & <- & He0).
    apply Hrel, He0.
  - apply in_flat_map in He. destruct He as (e0 & He0 & He).
    pose proof (IH e0 He0 (Hrel e0 He0) (PathLib.child p (fst e0))) as F.
    rewrite Forall_forall in F. apply F, He.
Qed.

Lemma open_zip_relative (n : fsnode) (z : ZipFile) :
  relative_archives n = true -> open_zip n = Ok z ->
  relative_members z = true.
Proof.
  induction n as [st [a|]|st es|t IH]; cbn [relative_archives open_zip];
    intros Hrel Ho; try discriminate.
  - inversion Ho. subst a. exact Hrel.
  - apply IH; assumption.
Qed.

Lemma below_extend root_ p (l : list string) :
  below root_ p -> below root_ (mkPath (drv p) (root p) (names p ++ l)).
Proof.
  intros (Hd & Hr & extra & He & Hn). repeat split; try assumption.
  exists (extra ++ l)%list. split.
  - destruct extra; [congruence | discriminate].
  - cbn [names]. rewrite Hn, app_assoc. reflexivity.
Qed.

Lemma plainly_below_extend root_ p extra (l : list string) :
  Forall (fun x => is_plain x = true) l ->
  plainly_below root_ p extra ->
  plainly_below root_ (mkPath (drv p) (root p) (names p ++ l)) (extra ++ l).
Proof.
  intros Hl (He & Hp & ->). repeat split.
  - destruct extra; [congruence | discriminate].
  - apply Forall_app. split; assumption.
  - cbn [drv root names]. rewrite app_assoc. reflexivity.
Qed.

(** The level of an element made for a path strictly below a root that
    has a name is not negative. *)
Lemma level_below root_ p size_ time_ :
  names root_ <> [] -> below root_ p ->
  0 <= Item.level (Item.init (PathLib.str root_) (PathLib.str p) size_ time_).
Proof.
  intros Hroot Hb.
  destruct (separators_below root_ p Hroot Hb) as (extra & _ & _ & E).
  cbn [Item.level Item.init]. unfold separators in E. rewrite E.
  apply count_nonneg.
Qed.

(** Under a root that has a name, and with archives whose member names
    are relative, no element of a scan has a negative level. *)
Lemma level_nonneg root_ tree items i :
  names root_ <> [] -> relative_archives tree = true ->
  analyze_folder root_ tree = Ok items -> In i items ->
  0 <= Item.level i.
Proof.
  intros Hroot Hrel H Hi.
  destruct (analyze_folder_sound root_ tree items i H Hi)
    as (p & n & Hp & _ & Hcase).
  pose proof (visit_below root_ (follow tree) root_ (or_introl eq_refl)) as B.
  pose proof (visit_relative _ (follow_relative _ Hrel) root_) as Rl.
  rewrite Forall_forall in B, Rl.
  specialize (B _ Hp). specialize (Rl _ Hp). cbn [fst snd] in B, Rl.
  destruct Hcase as [->|(_ & zipf & f & at_ & Ho & R & ->)].
  - apply level_below; assumption.
  - destruct (reaches_extends _ _ _ _ R (open_zip_relative _ _ Rl Ho))
      as (more & _ & _ & E).
    unfold record_item. rewrite E.
    apply level_below; [exact Hroot|]. apply below_extend, B.
Qed.

(** ** The level is the depth of nesting *)

(** The traversal with depths is the traversal. *)
Lemma visit_depth_forget (n : fsnode) :
  forall d p, map fst (visit_depth d p n) = visit p n.
Proof.
  induction n as [st a|st es IH|t IH] using fsnode_nested_ind; intros d p;
    try reflexivity.
  cbn [visit_depth visit]. rewrite map_app, map_map. cbn [fst]. f_equal.
  clear st. induction IH as [|e es He Hes IHes]; [reflexivity|].
  cbn [flat_map]. rewrite map_app, He, IHes. reflexivity.
Qed.

(** In a tree of plain names the object yielded at depth [d] has a path of
    [d] + 1 plain names below the root. *)
Lemma visit_depth_plainly_below root_ (n : fsnode) :
  plain_tree n = true ->
  forall d0 p0,
    (p0 = root_ /\ d0 = 0%nat)
    \/ (exists extra, plainly_below root_ p0 extra /\ List.length extra = d0) ->
    forall p m d, In (p, m, d) (visit_depth d0 p0 n) ->
      exists extra, plainly_below root_ p extra /\ List.length extra = S d.
Proof.
  induction n as [st a|st es IH|t IH] using fsnode_nested_ind;
    intros Hplain d0 p0 Hp p m d Hin; try destruct Hin.
  assert (Hc : forall nm, is_plain nm = true ->
                 exists extra, plainly_below root_ (PathLib.child p0 nm) extra
                               /\ List.length extra = S d0).
  { intros nm Hnm. destruct Hp as [[-> ->]|(extra & Hp & <-)].
    - exists [nm]. split; [apply plainly_below_child_of_root, Hnm | reflexivity].
    - exists (extra ++ [nm])%list. split.
      + apply plainly_below_child; assumption.
      + rewrite length_app. cbn [List.length]. lia. }
  cbn [plain_tree] in Hplain. rewrite forallb_forall in Hplain.
  cbn [visit_depth] in Hin. apply in_app_iff in Hin. destruct Hin as [Hin|Hin].
  - apply in_map_iff in Hin. destruct Hin as (e0 & E & He0).
    inversion E. subst p m d.
    apply (Hc (fst e0)). apply Hplain in He0. apply andb_prop in He0. apply He0.
  - apply in_flat_map in Hin. destruct Hin as (e0 & He0 & Hin).
    rewrite Forall_forall in IH.
    pose proof (Hplain e0 He0) as P. apply andb_prop in P.
    destruct P as [P1 P2].
    apply (IH e0 He0 P2 (S d0) (PathLib.child p0 (fst e0)) (or_intror (Hc _ P1))
              p m d Hin).
Qed.

(** X1: Under a root that has a name and in a tree of plain names, every
    object that the traversal yields and that is not a link has its
    element in the result of the scan, and the level of that element is
    the number of directories between the root and the object: 0 for
    an entry of the root, 1 for an entry of such an entry, and so on. *)
Theorem level_is_nesting_depth
    (root_ : Path) (tree : fsnode) (items : list Item.t)
    (Hroot : names root_ <> [])
    (Hplain : plain_tree tree = true)
    (H : analyze_folder root_ tree = Ok items) :
  map fst (rglob_depth root_ tree) = rglob root_ tree
  /\ forall p n d,
       In (p, n, d) (rglob_depth root_ tree) -> is_symlink n = false ->
       In (object_item root_ p n) items
       /\ Item.level (object_item root_ p n) = Z.of_nat d.
Proof.
  split; [apply visit_depth_forget|].
  intros p n d Hin Hlink. split.
  - apply (analyze_folder_complete root_ tree items p n H); [|exact Hlink].
    unfold rglob. rewrite <- (visit_depth_forget _ 0%nat).
    apply (in_map fst) in Hin. exact Hin.
  - destruct (visit_depth_plainly_below root_ (follow tree)
                (follow_plain _ Hplain) 0%nat root_
                (or_introl (conj eq_refl eq_refl)) p n d Hin)
      as (extra & Hb & Hlen).
    unfold object_item. rewrite (level_plainly_below root_ p extra) by assumption.
    lia.
Qed.

Lemma level_is_nesting_depth_witness :
  exists items,
    analyze_folder sample_root
      (chain sample_stat sample_stat sample_stat sample_stat) = Ok items
    /\ map (fun i => (Item.name i, Item.level i)) items
       = [("a", 0); ("b", 1); ("file.txt", 2)]
    /\ forall p n d,
         In (p, n, d)
            (rglob_depth sample_root
               (chain sample_stat sample_stat sample_stat sample_stat)) ->
         is_symlink n = false ->
         In (object_item sample_root p n) items
         /\ Item.level (object_item sample_root p n) = Z.of_nat d.
Proof.
  eexists. split; [reflexivity|]. split; [reflexivity|].
  apply (level_is_nesting_depth sample_root
           (chain sample_stat sample_stat sample_stat sample_stat)).
  - discriminate.
  - reflexivity.
  - reflexivity.
Defined.

(** ** The name is the last name of the path *)

Lemma rglob_plainly_below root_ tree p n :
  plain_tree tree = true -> In (p, n) (rglob root_ tree) ->
  exists extra, plainly_below root_ p extra.
Proof.
  intros Hplain Hin.
  pose proof (visit_plainly_below root_ (follow tree) (follow_plain _ Hplain)
                root_ (or_introl eq_refl)) as F.
  rewrite Forall_forall in F. apply (F _ Hin).
Qed.

(** X2: Under a root that has a name, in a tree of plain names and with
    archives whose member names are relative, the name of every element
    of a scan is the last name ([Path.name]) of the path the element
    was made for: the path of the yielded object, or the path that the
    record's name gives when joined to the path of its archive. *)
Theorem name_is_last_component
    (root_ : Path) (tree : fsnode) (items : list Item.t)
    (Hroot : names root_ <> [])
    (Hplain : plain_tree tree = true)
    (Hrel : relative_archives tree = true)
    (H : analyze_folder root_ tree = Ok items) :
  forall i, In i items ->
    (exists p n,
        In (p, n) (rglob root_ tree)
        /\ i = object_item root_ p n
        /\ Item.name i = PathLib.name p)
    \/ (exists p n zipf f at_,
          In (p, n) (rglob root_ tree)
          /\ open_zip n = Ok zipf
          /\ zip_reaches zipf p f at_
          /\ i = record_item root_ at_ f
          /\ Item.name i = PathLib.name (PathLib.joinpath at_ (filename f))).
Proof.
  intros i Hi.
  destruct (analyze_folder_sound root_ tree items i H Hi)
    as (p & n & Hp & _ & Hcase).
  destruct (rglob_plainly_below root_ tree p n Hplain Hp) as [extra Hb].
  destruct Hcase as [->|(_ & zipf & f & at_ & Ho & R & ->)].
  - left. exists p, n. split; [exact Hp|]. split; [reflexivity|].
    apply (name_plainly_below root_ p extra); assumption.
  - right. exists p, n, zipf, f, at_. repeat (split; [assumption || reflexivity|]).
    pose proof (visit_relative _ (follow_relative _ Hrel) root_) as Rl.
    rewrite Forall_forall in Rl. specialize (Rl _ Hp). cbn [snd] in Rl.
    destruct (reaches_extends _ _ _ _ R (open_zip_relative _ _ Rl Ho))
      as (more & Hm & _ & E).
    unfold record_item. rewrite E.
    eapply name_plainly_below; [exact Hroot|].
    apply plainly_below_extend; [|exact Hb].
    apply Forall_app. split; [exact Hm | apply member_names_plain].
Qed.

Lemma name_is_last_component_witness :
  exists items,
    analyze_folder sample_root with_archive = Ok items
    /\ map Item.name items
       = ["arch.ZIP"; "d"; "inner.zip"; "leaf.txt"; "x.txt"; "b.txt"; "c.txt"]
    /\ forall i, In i items ->
         (exists p n,
             In (p, n) (rglob sample_root with_archive)
             /\ i = object_item sample_root p n
             /\ Item.name i = PathLib.name p)
         \/ (exists p n zipf f at_,
               In (p, n) (rglob sample_root with_archive)
               /\ open_zip n = Ok zipf
               /\ zip_reaches zipf p f at_
               /\ i = record_item sample_root at_ f
               /\ Item.name i
                  = PathLib.name (PathLib.joinpath at_ (filename f))).
Proof.
  eexists. split; [reflexivity|]. split; [reflexivity|].
  apply (name_is_last_component sample_root with_archive).
  - discriminate.
  - reflexivity.
  - reflexivity.
  - reflexivity.
Defined.

(** ** The level of the members of an archive *)

(** A relative name puts the element as many levels below the path it is
    joined to as it has names. *)
Lemma level_joinpath (root_path : string) (p : Path) (s : string)
    size_ time_ size' time' :
  names p <> [] -> PathLib.relative_name s = true ->
  Item.level (Item.init root_path (PathLib.str (PathLib.joinpath p s))
                        size_ time_)
  = Item.level (Item.init root_path (PathLib.str p) size' time')
    + Z.of_nat (List.length (PathLib.member_names s)).
Proof.
  intros Hp Hs. rewrite (joinpath_relative p s Hs).
  cbn [Item.level Item.init]. fold (separators root_path).
  fold (separators (PathLib.str p)).
  fold (separators
          (PathLib.str (mkPath (drv p) (root p)
                          (names p ++ PathLib.member_names s)))).
  rewrite !separators_str. cbn [drv root names].
  pose proof (member_names_plain s) as Hm.
  destruct (PathLib.member_names s) as [|x l] eqn:E.
  - rewrite app_nil_r. cbn [List.length]. lia.
  - rewrite join_app by (assumption || discriminate).
    rewrite !separators_append, separators_sep,
      (separators_join_plain (x :: l) Hm).
    cbn [List.length]. lia.
Qed.

(** X9: In the walk of an archive mounted at a path that has a name, with
    member names that are relative, every record the walk comes to has
    its element in the result, and the level of that element is the
    level of an element made for the path of the record's archive plus
    the number of names in the record's name: a record named d/x.txt
    stands two levels below its archive. *)
Theorem archive_member_level
    (root_ : Path) (z : ZipFile) (zip_root : Path) (items : list Item.t)
    (Hmount : names zip_root <> [])
    (Hrel : relative_members z = true)
    (H : analyze_zip root_ z zip_root = Ok items) :
  forall f at_,
    zip_reaches z zip_root f at_ ->
    In (record_item root_ at_ f) items
    /\ forall size_ time_,
         Item.level (record_item root_ at_ f)
         = Item.level (Item.init (PathLib.str root_) (PathLib.str at_)
                                 size_ time_)
           + Z.of_nat (List.length (PathLib.member_names (filename f))).
Proof.
  intros f at_ R. split.
  - eapply analyze_zip_complete; eassumption.
  - intros size_ time_.
    destruct (reaches_extends _ _ _ _ R Hrel) as (more & _ & E & _).
    unfold record_item. apply level_joinpath.
    + rewrite E. cbn [names]. intros N. apply app_eq_nil in N.
      destruct N. contradiction.
    + eapply reaches_relative_name; eassumption.
Qed.

Lemma archive_member_level_witness :
  exists items,
    analyze_zip sample_root sample_archive
      (mkPath "" "" ["root"; "arch.ZIP"]) = Ok items
    /\ PathLib.member_names "d/inner.zip" = ["d"; "inner.zip"]
    /\ map (fun i => (Item.name i, Item.level i)) items
       = [("d", 1); ("leaf.txt", 3); ("inner.zip", 2); ("x.txt", 1)]
    /\ forall f at_,
         zip_reaches sample_archive (mkPath "" "" ["root"; "arch.ZIP"]) f at_ ->
         In (record_item sample_root at_ f) items
         /\ forall size_ time_,
              Item.level (record_item sample_root at_ f)
              = Item.level (Item.init (PathLib.str sample_root)
                                      (PathLib.str at_) size_ time_)
                + Z.of_nat (List.length (PathLib.member_names (filename f))).
Proof.
  eexists. split; [reflexivity|]. split; [reflexivity|].
  split; [reflexivity|].
  apply (archive_member_level sample_root sample_archive
           (mkPath "" "" ["root"; "arch.ZIP"])).
  - discriminate.
  - reflexivity.
  - reflexivity.
Defined.

(** ** The order of the result: what contains comes first *)





(** ** When a walk raises *)

(** A loop raises exactly the exception of its first turn that raises. *)
Lemma for_each_raise_iff {X : Type} (turn : X -> result (list Item.t))
    (l : list X) (e : exn) :
  for_each turn l = Raise e
  <-> exists pre x post before,
        l = (pre ++ x :: post)%list
        /\ for_each turn pre = Ok before
        /\ turn x = Raise e.
Proof.
  split.
  - induction l as [|x l IH]; cbn [for_each]; [discriminate|].
    destruct (turn x) as [h|e0] eqn:Ex; cbn [bind].
    + destruct (for_each turn l) as [b|e1]; cbn [bind]; [discriminate|].
      intros E. inversion E. subst e1.
      destruct (IH eq_refl) as (pre & y & post & before & -> & Hpre & Hy).
      exists (x :: pre), y, post, (h ++ before)%list.
      split; [reflexivity|]. split; [|exact Hy].
      cbn [for_each]. rewrite Ex, Hpre. reflexivity.
    + intros E. inversion E. subst e0.
      exists [], x, l, []. auto.
  - intros (pre & x & post & before & -> & Hpre & Hx).
    rewrite for_each_app, Hpre. cbn [bind for_each]. rewrite Hx. reflexivity.
Qed.

(** A walk that raises has come to a record with the suffix of an
    archive that could not be opened, and raises what opening it raised. *)
Lemma analyze_zip_raise_inv root_ (z : ZipFile) :
  forall zip_root e,
    analyze_zip root_ z zip_root = Raise e ->
    exists f at_,
      zip_reaches z zip_root f at_
      /\ is_zip_suffix (PathLib.joinpath at_ (filename f)) = true
      /\ opened f = Raise e.
Proof.
  induction z as [l IH] using ZipFile_nested_ind.
  intros zip_root e H.
  rewrite analyze_zip_for_each in H.
  apply for_each_raise_iff in H.
  destruct H as (pre & f & post & before & -> & _ & Hf).
  rewrite Forall_forall in IH.
  specialize (IH f (in_elt f pre post)). cbv beta in IH.
  unfold zip_turn in Hf.
  destruct (is_zip_suffix (PathLib.joinpath zip_root (filename f))) eqn:Hzip;
    [|discriminate].
  destruct (opened f) as [nested|e0] eqn:Ho.
  - rewrite (proj2 (data_Some f nested) Ho) in IH.
    destruct (analyze_zip root_ nested _) as [contents|e1] eqn:Hz;
      [discriminate|].
    cbn [bind] in Hf. inversion Hf. subst e1.
    destruct (IH _ _ Hz) as (g & at_ & R & Gzip & Go).
    exists g, at_. split; [|auto].
    eapply reaches_nested; [exact Hzip | apply data_Some, Ho | exact R].
  - cbn [bind] in Hf. inversion Hf. subst e0.
    exists f, zip_root. split; [apply reaches_record | auto].
Qed.

(** X4: The archive walker raises exactly when its walk comes, directly or
    through nested archives, to a record whose path has the suffix of an
    archive and that cannot be opened as one; what it raises is what
    opening such a record raised: [BadZipFile] for bytes that are no
    archive, [RuntimeError] for an encrypted record, or any other. *)
Theorem analyze_zip_raises_exactly
    (root_ : Path) (z : ZipFile) (zip_root : Path) :
  (forall e,
      analyze_zip root_ z zip_root = Raise e ->
      exists f at_,
        zip_reaches z zip_root f at_
        /\ is_zip_suffix (PathLib.joinpath at_ (filename f)) = true
        /\ opened f = Raise e)
  /\ ((exists e, analyze_zip root_ z zip_root = Raise e)
      <-> exists f at_ e,
            zip_reaches z zip_root f at_
            /\ is_zip_suffix (PathLib.joinpath at_ (filename f)) = true
            /\ opened f = Raise e).
Proof.
  split; [apply analyze_zip_raise_inv|]. split.
  - intros [e He]. apply analyze_zip_raise_inv in He.
    destruct He as (f & at_ & He). exists f, at_, e. exact He.
  - intros (f & at_ & e & R & Hzip & Ho).
    apply (zip_reaches_raises root_ z zip_root f at_ e R).
    unfold zip_turn. rewrite Hzip, Ho. reflexivity.
Qed.

(** An encrypted record named as an archive ends the walk with the
    [RuntimeError] of reading it. *)
Example encrypted_member_ends_walk :
  analyze_zip sample_root
    (mkZipFile [mkZipInfo "x.txt" 5 sample_zip_time (Raise BadZipFile);
                mkZipInfo "enc.zip" 9 sample_zip_time (Raise RuntimeError)])
    (mkPath "" "" ["root"; "a.zip"])
  = Raise RuntimeError.
Proof. reflexivity. Qed.

(** ** A tree without archives *)



(** ** Which names are archives *)

Lemma lower_char_dot (a : ascii) : Text.lower_char a = Text.dot -> a = Text.dot.
Proof.
  destruct a as [[] [] [] [] [] [] [] []]; vm_compute; intros H;
    try discriminate H; reflexivity.
Qed.

Lemma lower_char_of_dot : Text.lower_char Text.dot = Text.dot.
Proof. reflexivity. Qed.

Lemma string_length_append (a b : string) :
  String.length (a ++ b) = (String.length a + String.length b)%nat.
Proof.
  induction a as [|x a IH]; cbn [append String.length]; [reflexivity|].
  rewrite IH. reflexivity.
Qed.

Lemma rfind_range (c : ascii) (s : string) :
  Text.rfind c s = -1 \/ (0 <= Text.rfind c s < Text.len s).
Proof.
  unfold Text.len.
  induction s as [|x s IH]; cbn [Text.rfind String.length]; [left; reflexivity|].
  destruct (Z.leb_spec 0 (Text.rfind c s)).
  - right. lia.
  - destruct (Ascii.eqb x c); [right; lia | left; reflexivity].
Qed.

Lemma rfind_append (c : ascii) (a b : string) :
  Text.rfind c (a ++ b)
  = if 0 <=? Text.rfind c b then Text.len a + Text.rfind c b
    else Text.rfind c a.
Proof.
  unfold Text.len.
  induction a as [|x a IH]; cbn [append Text.rfind String.length].
  - destruct (rfind_range c b) as [E|E].
    + rewrite E. reflexivity.
    + destruct (Z.leb_spec 0 (Text.rfind c b)); lia.
  - rewrite IH.
    destruct (Z.leb_spec 0 (Text.rfind c b)) as [L|L].
    + destruct (Z.leb_spec 0 (Z.of_nat (String.length a) + Text.rfind c b)); lia.
    + reflexivity.
Qed.

Lemma substring_all (s : string) : substring 0 (String.length s) s = s.
Proof.
  induction s as [|x s IH]; cbn [substring String.length]; [reflexivity|].
  rewrite IH. reflexivity.
Qed.

Lemma substring_skip (a b : string) (m : nat) :
  substring (String.length a) m (a ++ b) = substring 0 m b.
Proof.
  induction a as [|x a IH]; cbn [append String.length substring];
    [reflexivity | exact IH].
Qed.

Lemma slice_from_append (a b : string) :
  Text.slice_from (Text.len a) (a ++ b) = b.
Proof.
  unfold Text.slice_from, Text.len.
  rewrite Nat2Z.id, string_length_append, substring_skip.
  replace (String.length a + String.length b - String.length a)%nat
    with (String.length b) by lia.
  apply substring_all.
Qed.

(** A string is its first [n] characters and the rest. *)
Lemma substring_split (n : nat) (s : string) :
  (n <= String.length s)%nat ->
  s = (substring 0 n s ++ substring n (String.length s - n) s)%string
  /\ String.length (substring 0 n s) = n.
Proof.
  revert s. induction n as [|n IH]; intros s Hn.
  - rewrite Nat.sub_0_r, substring_all.
    destruct s; split; reflexivity.
  - destruct s as [|x s]; cbn [String.length] in Hn; [lia|].
    destruct (IH s ltac:(lia)) as [E1 E2].
    cbn [substring String.length Nat.sub append].
    split; [rewrite <- E1; reflexivity | rewrite E2; reflexivity].
Qed.

(** The strings that lower to the suffix of an archive: a dot and three
    characters that are not dots. *)
Lemma lower_is_zip (e : string) :
  Text.lower e = ".zip" ->
  Text.rfind Text.dot e = 0 /\ Text.len e = 4.
Proof.
  destruct e as [|c0 [|c1 [|c2 [|c3 [|c4 e]]]]]; cbn [Text.lower];
    intros H; try discriminate H.
  injection H as H0 H1 H2 H3.
  apply lower_char_dot in H0. subst c0.
  assert (N : forall c x, Text.lower_char c = x -> x <> Text.dot ->
                          Ascii.eqb c Text.dot = false).
  { intros c x Hc Hx. apply Ascii.eqb_neq. intros ->.
    rewrite lower_char_of_dot in Hc. congruence. }
  cbn [Text.rfind].
  rewrite (N c3 _ H3), (N c2 _ H2), (N c1 _ H1) by discriminate.
  split; reflexivity.
Qed.

(** X7: The test for an archive, in both walkers: the last name of the path
    is a stem that is not empty followed by .zip in any mix of cases.  A
    name that is nothing but the suffix is not an archive. *)
Theorem zip_suffix_exactly (p : Path) :
  is_zip_suffix p = true
  <-> exists stem ext,
        PathLib.name p = (stem ++ ext)%string
        /\ stem <> EmptyString
        /\ Text.lower ext = ".zip".
Proof.
  unfold is_zip_suffix, PathLib.suffix. cbv zeta.
  split.
  - set (nm := PathLib.name p). intros H. apply String.eqb_eq in H.
    destruct ((0 <? Text.rfind Text.dot nm)
              && (Text.rfind Text.dot nm <? Text.len nm - 1))%bool eqn:C;
      [|discriminate H].
    apply andb_prop in C. destruct C as [C1 C2].
    apply Z.ltb_lt in C1, C2. unfold Text.len in C2.
    destruct (substring_split (Z.to_nat (Text.rfind Text.dot nm)) nm
                ltac:(lia)) as [E1 E2].
    exists (substring 0 (Z.to_nat (Text.rfind Text.dot nm)) nm),
           (Text.slice_from (Text.rfind Text.dot nm) nm).
    split; [exact E1|]. split; [|exact H].
    intros E. rewrite E in E2. cbn [String.length] in E2. lia.
  - intros (stem & ext & E & Hstem & Hext). rewrite E.
    destruct (lower_is_zip ext Hext) as [R L].
    rewrite rfind_append, R.
    change (0 <=? 0) with true. cbv iota. rewrite Z.add_0_r.
    assert (0 < Text.len stem).
    { unfold Text.len. destruct stem; [congruence|]. cbn [String.length]. lia. }
    assert (Hlen : Text.len (stem ++ ext) = Text.len stem + 4).
    { unfold Text.len in *. rewrite string_length_append. lia. }
    rewrite Hlen.
    replace ((0 <? Text.len stem) && (Text.len stem <? Text.len stem + 4 - 1))%bool
      with true.
    + rewrite slice_from_append, Hext. reflexivity.
    + symmetry. apply andb_true_intro. split; apply Z.ltb_lt; lia.
Qed.

(** ** The elements of a walk: all that is met, and nothing else *)

(** X13: The elements of an archive walk that ends normally are exactly the
    elements of the records it comes to, those of nested archives
    included: no record is left out and no element is made up. *)
Theorem analyze_zip_elements
    (root_ : Path) (z : ZipFile) (zip_root : Path) (items : list Item.t)
    (H : analyze_zip root_ z zip_root = Ok items) :
  forall i,
    In i items
    <-> exists f at_, zip_reaches z zip_root f at_ /\ i = record_item root_ at_ f.
Proof.
  intros i. split.
  - apply analyze_zip_sound, H.
  - intros (f & at_ & R & ->). eapply analyze_zip_complete; eassumption.
Qed.

Lemma analyze_zip_elements_witness :
  exists items,
    analyze_zip sample_root sample_archive (PathLib.child sample_root "arch.ZIP")
    = Ok items
    /\ In (record_item sample_root
             (PathLib.joinpath (PathLib.child sample_root "arch.ZIP")
                "d/inner.zip")
             (mkZipInfo "leaf.txt" 7 sample_zip_time (Raise BadZipFile))) items.
Proof.
  eexists. split; [reflexivity|].
  apply (analyze_zip_elements sample_root sample_archive
           (PathLib.child sample_root "arch.ZIP") _ eq_refl).
  eexists _, _. split; [|reflexivity].
  apply (reaches_nested [mkZipInfo "d/" 0 sample_zip_time (Raise BadZipFile)]
           (mkZipInfo "d/inner.zip" 123 sample_zip_time (Ok sample_inner))
           [mkZipInfo "x.txt" 5 sample_zip_time (Raise BadZipFile)]
           (PathLib.child sample_root "arch.ZIP") sample_inner);
    [reflexivity | reflexivity|].
  apply (reaches_record
           [] (mkZipInfo "leaf.txt" 7 sample_zip_time (Raise BadZipFile)) []).
Defined.

(** X14: An element is in the result of a scan that ends normally exactly
    when it is the element of a yielded object that is not a link, or
    the element of a record that the walk of an archive file comes to.
    Nothing that [rglob] yields is left out but the links, and no
    element is made up. *)
Theorem analyze_folder_elements
    (root_ : Path) (tree : fsnode) (items : list Item.t)
    (H : analyze_folder root_ tree = Ok items) :
  forall i,
    In i items
    <-> exists path_ n,
          In (path_, n) (rglob root_ tree)
          /\ is_symlink n = false
          /\ (i = object_item root_ path_ n
              \/ (is_zip_suffix path_ = true
                  /\ exists zipf f at_,
                       open_zip n = Ok zipf
                       /\ zip_reaches zipf path_ f at_
                       /\ i = record_item root_ at_ f)).
Proof.
  intros i. unfold analyze_folder, analyze_folder_with in H.
  destruct (analyze_folder_raw root_ tree) as [raw|e] eqn:R; [|discriminate].
  cbn [bind] in H. inversion H as [Hitems]. clear H.
  rewrite sort_In.
  unfold analyze_folder_raw in R. rewrite walk_for_each in R.
  rewrite (for_each_In _ _ _ i R). split.
  - intros ([p n] & here & Hx & Hturn & Hi). cbn [fst snd] in Hturn.
    exists p, n. split; [exact Hx|].
    apply folder_turn_Ok in Hturn.
    destruct (is_symlink n); [subst here; destruct Hi|].
    split; [reflexivity|].
    destruct Hturn as (contents & -> & Hc).
    apply in_app_iff in Hi. destruct Hi as [Hi|[<-|[]]]; [|left; reflexivity].
    right. destruct (is_zip_suffix p); [|subst contents; destruct Hi].
    split; [reflexivity|].
    destruct Hc as (zipf & Hopen & Hz).
    destruct (analyze_zip_sound root_ zipf p contents i Hz Hi)
      as (f & at_ & Rz & E).
    exists zipf, f, at_. auto.
  - intros (p & n & Hx & Hlink & Hi).
    pose proof Hx as Hsplit. apply in_split in Hsplit.
    destruct Hsplit as (pre & post & E). rewrite E in R.
    apply for_each_split in R.
    destruct R as (_ & here & _ & _ & Hturn & _ & _).
    exists (p, n), here. split; [exact Hx|]. split; [exact Hturn|].
    cbn [fst snd] in Hturn. apply folder_turn_Ok in Hturn.
    rewrite Hlink in Hturn. destruct Hturn as (contents & -> & Hc).
    apply in_or_app.
    destruct Hi as [->|(Hzip & zipf & f & at_ & Hopen & Rz & ->)].
    + right. left. reflexivity.
    + left. rewrite Hzip in Hc. destruct Hc as (zipf' & Hopen' & Hz).
      rewrite Hopen in Hopen'. inversion Hopen'. subst zipf'.
      eapply analyze_zip_complete; eassumption.
Qed.

Lemma analyze_folder_elements_witness :
  exists items,
    analyze_folder sample_root with_archive = Ok items
    /\ In (object_item sample_root (PathLib.child sample_root "c.txt")
             (File sample_stat None)) items.
Proof.
  eexists. split; [reflexivity|].
  apply (analyze_folder_elements sample_root with_archive _ eq_refl).
  exists (PathLib.child sample_root "c.txt"), (File sample_stat None).
  split; [right; right; left; reflexivity|].
  split; [reflexivity | left; reflexivity].
Defined.

(** ** Sample runs of the characterisations *)

Lemma zip_suffix_exactly_witness :
  is_zip_suffix (PathLib.child sample_root "arch.ZIP") = true
  /\ is_zip_suffix (PathLib.child sample_root ".zip") = false.
Proof.
  split.
  - apply (proj2 (zip_suffix_exactly (PathLib.child sample_root "arch.ZIP"))).
    exists "arch", ".ZIP". repeat split. discriminate.
  - reflexivity.
Defined.
